(** * S3 PDF extractor: the matching, formatting and archiving core

    A shallow embedding of [streamlit_app.py].  Python values are modelled
    as follows.

    - [str] is [string]; a character is one code point below 256 (Latin-1),
      on which [str.lower], [str.strip] and the comparison of characters
      are the ones Python computes.
    - [int] is [Z].  The [float] that [format_file_size] computes is an
      exact rational ([Q]): below [2^53] the conversion of an [int], the
      division by [1024.0] (a power of two) and the comparison with [1024]
      are all exact in binary64, and [format(x, ".1f")] rounds the exact
      value to the nearest tenth, ties to even.
    - a [list] is a [list]; a [set] of strings is a [gset string]; a [dict]
      is an association list in insertion order with distinct keys.
    - calls of [st.error], [st.warning] ... are collected in a log that the
      functions return next to their value.
    - an exception that a function lets through is a value of its result
      ([inl e], [Raise e]); one that it catches shows in what it does
      next. *)

From Stdlib Require Import ZArith QArith Qround Qabs List Ascii String Bool Lia.
From Stdlib Require Import DecimalString.
From stdpp Require Import base decidable list gmap strings.

Local Open Scope string_scope.
Local Open Scope Z_scope.

(** ** Strings *)

(** [c.lower()] for one code point below 256: A-Z and the upper-case letters
    of Latin-1 (0xC0-0xDE but the multiplication sign 0xD7) move up by 32. *)
Definition lower_char (c : ascii) : ascii :=
  let n := nat_of_ascii c in
  if ((65 <=? n)%nat && (n <=? 90)%nat)
     || ((192 <=? n)%nat && (n <=? 222)%nat && negb (n =? 215)%nat)
  then ascii_of_nat (n + 32)
  else c.

(** [s.lower()] *)
Fixpoint lower (s : string) : string :=
  match s with
  | EmptyString => EmptyString
  | String c s' => String (lower_char c) (lower s')
  end.

(** [c.isspace()] below 256: TAB LF VT FF CR, FS GS RS US, space, NEL, NBSP. *)
Definition isspace (c : ascii) : bool :=
  let n := nat_of_ascii c in
  ((9 <=? n)%nat && (n <=? 13)%nat) || ((28 <=? n)%nat && (n <=? 32)%nat)
  || (n =? 133)%nat || (n =? 160)%nat.

(** [s.lstrip()] *)
Fixpoint lstrip (s : string) : string :=
  match s with
  | EmptyString => EmptyString
  | String c s' => if isspace c then lstrip s' else s
  end.

(** [s.rstrip()] *)
Fixpoint rstrip (s : string) : string :=
  match s with
  | EmptyString => EmptyString
  | String c s' =>
      match rstrip s' with
      | EmptyString => if isspace c then EmptyString else String c EmptyString
      | r => String c r
      end
  end.

(** [s.strip()] *)
Definition strip (s : string) : string := rstrip (lstrip s).

(** [s.startswith(p)] *)
Fixpoint startswith (s p : string) : bool :=
  match p, s with
  | EmptyString, _ => true
  | String _ _, EmptyString => false
  | String a p', String b s' => Ascii.eqb a b && startswith s' p'
  end.

(** [s.endswith(suf)] *)
Fixpoint endswith (s suf : string) : bool :=
  String.eqb s suf
  || match s with
     | EmptyString => false
     | String _ s' => endswith s' suf
     end.

(** [sub in s] *)
Fixpoint contains (s sub : string) : bool :=
  startswith s sub
  || match s with
     | EmptyString => false
     | String _ s' => contains s' sub
     end.

(** [s.split(sep)] for a separator of one character: never empty. *)
Fixpoint split (sep : ascii) (s : string) : list string :=
  match s with
  | EmptyString => [EmptyString]
  | String c s' =>
      if Ascii.eqb c sep then EmptyString :: split sep s'
      else match split sep s' with
           | seg :: rest => String c seg :: rest
           | [] => [String c EmptyString]
           end
  end.

(** [l[-1]] on a list of strings known not to be empty. *)
Definition last_item (l : list string) : string := List.last l EmptyString.

(** [str(n)] for a non-negative [int]. *)
Definition str_of_N (n : N) : string := NilZero.string_of_uint (N.to_uint n).

Definition str_of_nat (n : nat) : string := str_of_N (N.of_nat n).

(** ** Size formatter *)

(** Rounding of a rational to the nearest integer, ties to the even one. *)
Definition round_half_even (q : Q) : Z :=
  let f := Qfloor q in
  match Qcompare (q - inject_Z f) (1 # 2) with
  | Lt => f
  | Gt => f + 1
  | Eq => if Z.even f then f else f + 1
  end.

(** [f"{x:.1f}"] *)
Definition format_1f (x : Q) : string :=
  let t := round_half_even (Qabs x * 10) in
  (if Qlt_le_dec x 0 then "-" else "")
  ++ str_of_N (Z.to_N (t / 10)) ++ "." ++ str_of_N (Z.to_N (t mod 10)).

Definition size_names : list string := ["B"; "KB"; "MB"; "GB"].

(** The [while] loop of [format_file_size]; [fuel] bounds the number of
    iterations. *)
Fixpoint scale_loop (fuel : nat) (size_bytes : Q) (i : nat) : Q * nat :=
  match fuel with
  | O => (size_bytes, i)
  | S fuel' =>
      if Qle_bool 1024 size_bytes && (i <? length size_names - 1)%nat
      then scale_loop fuel' (size_bytes / 1024) (S i)
      else (size_bytes, i)
  end.

Definition format_file_size (size_bytes : Z) : string :=
  if size_bytes =? 0 then "0B"
  else
    let '(q, i) := scale_loop (length size_names) (inject_Z size_bytes) 0 in
    format_1f q ++ " " ++ nth i size_names "".

(** ** Bucket listing and catalog *)

(** One object of a listing page: [obj['Key']], [obj['Size']],
    [obj['LastModified']] (a timestamp, kept as seconds). *)
Record s3_object := {
  obj_Key : string;
  obj_Size : Z;
  obj_LastModified : Z
}.

(** The dictionary built for every PDF found. *)
Record file_info := {
  Key : string;
  FileName : string;
  Size : Z;
  LastModified : Z;
  SizeFormatted : string
}.

(** What the listing can raise: botocore's [ClientError], or any other
    exception (no credentials, no network ...), each with its [str(e)]. *)
Inductive listing_exn :=
| ClientError (msg : string)
| OtherException (msg : string).

(** The page iterator [paginator.paginate(Bucket=bucket, Prefix=prefix)].
    It is lazy: a page is requested when the [for] loop asks for it, and a
    request can raise.  A page holds ['Contents'] or not. *)
Inductive pages :=
| NoMorePages
| NextPage (contents : option (list s3_object)) (rest : pages)
| PageRaises (e : listing_exn).

Inductive result (A : Type) :=
| Ok (a : A)
| Raise (e : listing_exn).
Arguments Ok {A} a.
Arguments Raise {A} e.

(** Calls into Streamlit, the store and the warning machinery, in the order
    they are made.  [st_write_missing n] is [st.write] of the cross mark and
    [n], [st_write_available n] is [st.write] of the page mark and [n];
    [st_success_zip_ready n] is [st.success] of the check mark and
    ["ZIP file ready with n PDFs!"]; [warn_duplicate_name n] is the
    [UserWarning] of [zipfile] for a name written a second time. *)
Inductive event :=
| st_error (msg : string)
| st_success (msg : string)
| st_warning (msg : string)
| st_info (msg : string)
| st_write (msg : string)
| st_write_missing (name : string)
| st_write_available (name : string)
| st_progress (done total : nat)
| st_success_zip_ready (count : nat)
| ev_get_object (key : string)
| warn_duplicate_name (name : string).

Definition is_pdf_key (key : string) : bool := endswith (lower key) ".pdf".

Definition make_file_info (obj : s3_object) : file_info :=
  {| Key := obj_Key obj;
     FileName := last_item (split "/" (obj_Key obj));
     Size := obj_Size obj;
     LastModified := obj_LastModified obj;
     SizeFormatted := format_file_size (obj_Size obj) |}.

(** [for obj in page['Contents']] of [find_specific_pdfs]. *)
Fixpoint collect_contents (contents : list s3_object)
    (all_s3_files : list file_info) : list file_info :=
  match contents with
  | [] => all_s3_files
  | obj :: contents' =>
      if is_pdf_key (obj_Key obj)
      then collect_contents contents' (all_s3_files ++ [make_file_info obj])
      else collect_contents contents' all_s3_files
  end.

(** [for page in pages] of [find_specific_pdfs]. *)
Fixpoint collect_pages (ps : pages) (all_s3_files : list file_info)
    : result (list file_info) :=
  match ps with
  | NoMorePages => Ok all_s3_files
  | NextPage None rest => collect_pages rest all_s3_files
  | NextPage (Some contents) rest =>
      collect_pages rest (collect_contents contents all_s3_files)
  | PageRaises e => Raise e
  end.

(** [for target_file in target_files] of [find_specific_pdfs]. *)
Fixpoint match_targets (target_files : list string)
    (all_s3_files found_files : list file_info) : list file_info :=
  match target_files with
  | [] => found_files
  | target_file :: rest =>
      let target_file := strip target_file in
      if String.eqb target_file "" then
        match_targets rest all_s3_files found_files
      else
        let exact_matches :=
          List.filter
            (fun f => String.eqb (lower (FileName f)) (lower target_file))
            all_s3_files in
        match exact_matches with
        | _ :: _ =>
            match_targets rest all_s3_files (found_files ++ exact_matches)
        | [] =>
            let partial_matches :=
              List.filter
                (fun f => contains (lower (FileName f)) (lower target_file))
                all_s3_files in
            match partial_matches with
            | _ :: _ =>
                match_targets rest all_s3_files
                  (found_files ++ partial_matches)
            | [] => match_targets rest all_s3_files found_files
            end
        end
  end.

(** [find_specific_pdfs(s3_client, bucket, target_files, prefix)]: the
    client, the bucket and the prefix are in [listing], the pages they give.
    Returns [(found_files, all_s3_files)] and the calls of [st.error]. *)
Definition find_specific_pdfs (listing : pages) (target_files : list string)
    : (list file_info * list file_info) * list event :=
  match collect_pages listing [] with
  | Ok all_s3_files =>
      ((match_targets target_files all_s3_files [], all_s3_files), [])
  | Raise (ClientError msg) =>
      (([], []), [st_error ("Error accessing S3 bucket: " ++ msg)])
  | Raise (OtherException msg) =>
      (([], []), [st_error ("Unexpected error: " ++ msg)])
  end.

(** The objects a listing yields before it ends or raises, and how it ends. *)
Fixpoint listing_objects (ps : pages) : list s3_object :=
  match ps with
  | NoMorePages => []
  | NextPage None rest => listing_objects rest
  | NextPage (Some contents) rest => contents ++ listing_objects rest
  | PageRaises _ => []
  end.

Fixpoint listing_outcome (ps : pages) : option listing_exn :=
  match ps with
  | NoMorePages => None
  | NextPage _ rest => listing_outcome rest
  | PageRaises e => Some e
  end.

(** ** The "Specific Filenames" branch of the search button *)

(** [missing_files] of the branch: the lower-cased requested names minus the
    lower-cased file names of what was found. *)
Definition missing_files (found_files : list file_info)
    (target_files : list string) : gset string :=
  let found_names : gset string :=
    list_to_set (map (fun f => lower (FileName f)) found_files) in
  let target_names_lower : gset string :=
    list_to_set (map lower target_files) in
  target_names_lower ∖ found_names.

(** The branch: the calls it makes (those of [find_specific_pdfs] first) and
    the value it stores in [st.session_state.found_files], if any.  The
    iteration over the set [missing_files] follows [elements]. *)
Definition specific_filenames_search (listing : pages)
    (target_files : list string) : list event * option (list file_info) :=
  let '((found_files, all_files), log) :=
    find_specific_pdfs listing target_files in
  match found_files with
  | _ :: _ =>
      let missing := missing_files found_files target_files in
      let found_msg :=
        st_success ("Found " ++ str_of_nat (length found_files)
                    ++ " matching PDFs out of "
                    ++ str_of_nat (length target_files) ++ " requested") in
      let missing_msgs :=
        if decide (missing = ∅) then []
        else st_warning ("Could not find " ++ str_of_nat (size missing)
                         ++ " files:")
             :: map st_write_missing (elements missing) in
      (log ++ found_msg :: missing_msgs, Some found_files)%list
  | [] =>
      let available_msgs :=
        match all_files with
        | [] => []
        | _ :: _ =>
            (st_info "Available PDFs in bucket:"
             :: map (fun f => st_write_available (FileName f))
                    (firstn 10 all_files)
             ++ (if (10 <? length all_files)%nat
                 then [st_write ("... and "
                                 ++ str_of_nat (length all_files - 10)
                                 ++ " more files")]
                 else []))%list
        end in
      (log ++ st_error "No matching PDFs found" :: available_msgs, None)%list
  end.

(** ** Pattern search *)

(** What [re.compile] raises when it raises: [re.error] for a pattern that
    is not well formed, or another exception, as [OverflowError] for a
    repetition count too large and [RecursionError]; [msg] is [str(e)]. *)
Inductive compile_exn :=
| re_error (msg : string)
| compile_raises (msg : string).

(** The interface of Python's [re] module that [search_by_pattern] uses:
    [re_compile p] is [re.compile(p, re.IGNORECASE)], [inl e] when it
    raises [e]; [re_search r s] tells whether [r.search(s)] finds a
    match. *)
Class PatternEngine := {
  regex : Type;
  re_compile : string -> compile_exn + regex;
  re_search : regex -> string -> bool
}.

Section PatternSearch.
Context {E : PatternEngine}.

(** [for obj in page['Contents']] of [search_by_pattern]. *)
Fixpoint search_contents (pattern_regex : regex) (contents : list s3_object)
    (found_files : list file_info) : list file_info :=
  match contents with
  | [] => found_files
  | obj :: contents' =>
      if is_pdf_key (obj_Key obj) then
        if re_search pattern_regex (obj_Key obj)
           || re_search pattern_regex (last_item (split "/" (obj_Key obj)))
        then search_contents pattern_regex contents'
               (found_files ++ [make_file_info obj])
        else search_contents pattern_regex contents' found_files
      else search_contents pattern_regex contents' found_files
  end.

(** [for page in pages] of [search_by_pattern]. *)
Fixpoint search_pages (pattern_regex : regex) (ps : pages)
    (found_files : list file_info) : result (list file_info) :=
  match ps with
  | NoMorePages => Ok found_files
  | NextPage None rest => search_pages pattern_regex rest found_files
  | NextPage (Some contents) rest =>
      search_pages pattern_regex rest
        (search_contents pattern_regex contents found_files)
  | PageRaises e => Raise e
  end.

Definition exn_str (e : listing_exn) : string :=
  match e with
  | ClientError msg => msg
  | OtherException msg => msg
  end.

(** [search_by_pattern(s3_client, bucket, pattern, prefix)].  The page
    iterator is created before the pattern is compiled, and read after.
    [except re.error] takes the first kind of exception of [re.compile],
    [except Exception] the other, as it takes those of the listing. *)
Definition search_by_pattern (listing : pages) (pattern : string)
    : list file_info * list event :=
  match re_compile pattern with
  | inl (re_error msg) =>
      ([], [st_error ("Invalid regex pattern: " ++ msg)])
  | inl (compile_raises msg) =>
      ([], [st_error ("Error searching files: " ++ msg)])
  | inr pattern_regex =>
      match search_pages pattern_regex listing [] with
      | Ok found_files => (found_files, [])
      | Raise e => ([], [st_error ("Error searching files: " ++ exn_str e)])
      end
  end.

(** What a branch of the search button leaves: the list it computed, the
    calls it made, and what it stored in [st.session_state.found_files]. *)
Record search_outcome := {
  found : list file_info;
  calls : list event;
  stored : option (list file_info)
}.

(** The "Pattern Search" branch. *)
Definition pattern_search (listing : pages) (pattern : string)
    : search_outcome :=
  let '(found_files, log) := search_by_pattern listing pattern in
  match found_files with
  | _ :: _ =>
      {| found := found_files;
         calls := log ++ [st_success ("Found "
                                      ++ str_of_nat (length found_files)
                                      ++ " PDFs matching pattern")];
         stored := Some found_files |}
  | [] =>
      {| found := found_files;
         calls := log ++ [st_error "No PDFs found matching the pattern"];
         stored := None |}
  end.

(** The "Browse All PDFs" branch. *)
Definition browse_all_pdfs (listing : pages) : search_outcome :=
  let '(found_files, log) := search_by_pattern listing ".*" in
  {| found := found_files;
     calls := log ++ [st_success ("Found " ++ str_of_nat (length found_files)
                                  ++ " PDFs in bucket")];
     stored := Some found_files |}.

End PatternSearch.

(** The characters with a meaning of their own in a pattern. *)
Definition special_chars : string := ".^$*+?{}[]\|()".

Fixpoint char_in (c : ascii) (s : string) : bool :=
  match s with
  | EmptyString => false
  | String d s' => Ascii.eqb c d || char_in c s'
  end.

(** A pattern of ordinary characters only. *)
Fixpoint plain (p : string) : bool :=
  match p with
  | EmptyString => true
  | String c p' => negb (char_in c special_chars) && plain p'
  end.

(** What the proofs below rest on, true of [re]: [re_matches r pre m post]
    says that [r] matches [m] where it stands, after [pre] and before [post];
    [search] looks for such a place anywhere in the string; a pattern of
    ordinary characters matches its own text whatever the case; and [".*"]
    finds a match in every string. *)
Class PatternEngineLaws (E : PatternEngine) := {
  re_matches : regex -> string -> string -> string -> Prop;
  re_search_spec : forall r s,
    re_search r s = true <->
    exists pre m post, s = pre ++ m ++ post /\ re_matches r pre m post;
  re_compile_plain : forall p,
    plain p = true ->
    exists r, re_compile p = inr r /\
      forall pre m post, re_matches r pre m post <-> lower m = lower p;
  re_compile_dot_star :
    exists r, re_compile ".*" = inr r /\ forall s, re_search r s = true
}.

(** A pattern engine for the part of the syntax made of ordinary
    characters, escaped punctuation, [.], [^], [$] and [*] after a character
    or a dot; every other pattern is refused.  The pattern is read from left
    to right up to the first fault, and a repetition in braces is read as
    far as [re] reads it before it raises [OverflowError]. *)
Module MiniRe.

Inductive atom := Chr (c : ascii) | Dot.
Inductive item := One (a : atom) | Star (a : atom) | Bol | Eol.

(** What the pattern is cut into; [TRaise e] stands where the reading
    stops and [e] is raised, if nothing is raised before. *)
Inductive token :=
| TAtom (a : atom) | TStar | TBol | TEol | TRaise (e : compile_exn).

Definition is_alnum (c : ascii) : bool :=
  let n := nat_of_ascii c in
  ((48 <=? n) && (n <=? 57) || (65 <=? n) && (n <=? 90)
   || (97 <=? n) && (n <=? 122))%nat.

Definition is_digit (c : ascii) : bool :=
  let n := nat_of_ascii c in ((48 <=? n) && (n <=? 57))%nat.

(** [while source.next in DIGITS: lo += sourceget()]: the digits read and
    what follows them. *)
Fixpoint read_digits (p : string) : string * string :=
  match p with
  | EmptyString => ("", "")
  | String c p' =>
      if is_digit c
      then let '(ds, rest) := read_digits p' in (String c ds, rest)
      else ("", p)
  end.

(** [int(lo)] for a string of digits. *)
Fixpoint int_of_digits (ds : string) (acc : N) : N :=
  match ds with
  | EmptyString => acc
  | String c ds' =>
      int_of_digits ds' (10 * acc + (N_of_ascii c - 48))%N
  end.

Definition MAXREPEAT : N := 4294967295.

Definition too_large (ds : string) : bool :=
  negb (String.eqb ds "") && (MAXREPEAT <=? int_of_digits ds 0)%N.

(** What follows an opening brace is [lo}], [lo,}] or [lo,hi}] with a
    bound that is [MAXREPEAT] or more: [re] raises [OverflowError] there,
    unless a lone backslash ends the pattern right after the brace, which
    [re], one step ahead in its reading, has refused by then. *)
Definition repeat_overflows (p : string) : bool :=
  let '(lo, p1) := read_digits p in
  let '(hi, p2) :=
    match p1 with
    | String "," p1' => read_digits p1'
    | _ => (lo, p1)
    end in
  match p2 with
  | String "}" rest =>
      negb (String.eqb rest "\") && (too_large lo || too_large hi)
  | _ => false
  end.

Fixpoint tokenize (p : string) : list token :=
  match p with
  | EmptyString => []
  | String c p' =>
      if Ascii.eqb c "\" then
        match p' with
        | EmptyString => [TRaise (re_error "bad escape (end of pattern)")]
        | String e p'' =>
            if is_alnum e
            then [TRaise (re_error "escape outside the supported syntax")]
            else TAtom (Chr e) :: tokenize p''
        end
      else if Ascii.eqb c "." then TAtom Dot :: tokenize p'
      else if Ascii.eqb c "*" then TStar :: tokenize p'
      else if Ascii.eqb c "^" then TBol :: tokenize p'
      else if Ascii.eqb c "$" then TEol :: tokenize p'
      else if char_in c special_chars then
        if Ascii.eqb c "{" && repeat_overflows p'
        then [TRaise (compile_raises "the repetition number is too large")]
        else [TRaise (re_error "outside the supported syntax")]
      else TAtom (Chr c) :: tokenize p'
  end.

Fixpoint items_of (ts : list token) : compile_exn + list item :=
  match ts with
  | [] => inr []
  | TRaise e :: _ => inl e
  | TStar :: _ => inl (re_error "nothing to repeat")
  | TAtom a :: TStar :: TStar :: _ => inl (re_error "multiple repeat")
  | TAtom a :: TStar :: rest =>
      match items_of rest with
      | inr r => inr (Star a :: r)
      | inl msg => inl msg
      end
  | TAtom a :: rest =>
      match items_of rest with
      | inr r => inr (One a :: r)
      | inl msg => inl msg
      end
  | TBol :: rest =>
      match items_of rest with
      | inr r => inr (Bol :: r)
      | inl msg => inl msg
      end
  | TEol :: rest =>
      match items_of rest with
      | inr r => inr (Eol :: r)
      | inl msg => inl msg
      end
  end.

Definition compile (p : string) : compile_exn + list item :=
  items_of (tokenize p).

(** With [re.IGNORECASE] a character matches whatever its case; a dot
    matches anything but a newline. *)
Definition atom_ok (a : atom) (c : ascii) : bool :=
  match a with
  | Chr d => Ascii.eqb (lower_char d) (lower_char c)
  | Dot => negb (Ascii.eqb c "010")
  end.

(** [$] holds at the end and before a newline that ends the string. *)
Definition at_end (s : string) : bool :=
  String.eqb s "" || String.eqb s (String "010" "").

Fixpoint match_star (a : atom) (k : bool -> string -> bool)
    (at_start : bool) (s : string) : bool :=
  k at_start s
  || match s with
     | EmptyString => false
     | String c s' => atom_ok a c && match_star a k false s'
     end.

(** Does [r] match a prefix of [s]?  [at_start] tells whether [s] is the
    whole string searched. *)
Fixpoint match_here (r : list item) (at_start : bool) (s : string) : bool :=
  match r with
  | [] => true
  | Bol :: r' => at_start && match_here r' at_start s
  | Eol :: r' => at_end s && match_here r' at_start s
  | One a :: r' =>
      match s with
      | EmptyString => false
      | String c s' => atom_ok a c && match_here r' false s'
      end
  | Star a :: r' => match_star a (match_here r') at_start s
  end.

Fixpoint search_from (r : list item) (at_start : bool) (s : string) : bool :=
  match_here r at_start s
  || match s with
     | EmptyString => false
     | String _ s' => search_from r false s'
     end.

Definition search (r : list item) (s : string) : bool := search_from r true s.

Definition engine : PatternEngine :=
  {| regex := list item; re_compile := compile; re_search := search |}.

(** [matches r pre m post]: [r] matches [m], which comes after [pre] and
    before [post]. *)
Inductive matches : list item -> string -> string -> string -> Prop :=
| m_nil pre post : matches [] pre "" post
| m_bol r m post : matches r "" m post -> matches (Bol :: r) "" m post
| m_eol r pre m post :
    at_end (m ++ post) = true -> matches r pre m post ->
    matches (Eol :: r) pre m post
| m_one a c r pre m post :
    atom_ok a c = true -> matches r (pre ++ String c "") m post ->
    matches (One a :: r) pre (String c m) post
| m_star_skip a r pre m post :
    matches r pre m post -> matches (Star a :: r) pre m post
| m_star_step a c r pre m post :
    atom_ok a c = true -> matches (Star a :: r) (pre ++ String c "") m post ->
    matches (Star a :: r) pre (String c m) post.

(** The items of a pattern of ordinary characters. *)
Fixpoint literal (p : string) : list item :=
  match p with
  | EmptyString => []
  | String c p' => One (Chr c) :: literal p'
  end.

(** Nothing comes before: the place is the start of the string. *)
Definition starts (pre : string) : bool :=
  match pre with
  | EmptyString => true
  | String _ _ => false
  end.

End MiniRe.

(** ** Archive *)

Definition bytes := list Byte.byte.

(** A [dict] from names to contents, in insertion order. *)
Definition dict := list (string * bytes).

(** [d[k] = v]: a key already there keeps its place and takes the value. *)
Fixpoint dict_set (d : dict) (k : string) (v : bytes) : dict :=
  match d with
  | [] => [(k, v)]
  | (k', v') :: d' =>
      if String.eqb k' k then (k', v) :: d' else (k', v') :: dict_set d' k v
  end.

Inductive compression := ZIP_STORED | ZIP_DEFLATED.

(** A member of a [zipfile.ZipFile]: its name, how it is compressed, and the
    bytes that reading it gives back. *)
Record zip_member := {
  member_name : string;
  member_compression : compression;
  member_data : bytes
}.

(** An archive open for writing: its default compression and its members in
    the order written.  The bytes of [zip_buffer.getvalue()] are those that
    [zipfile] writes for these members. *)
Record zip_file := {
  zip_compression : compression;
  zip_members : list zip_member
}.

(** What [zipfile] raises in [create_zip_file]; [msg] is [str(e)], as of
    Python 3.11. *)
Inductive zip_exn :=
| IndexError (msg : string)
| struct_error (msg : string).

(** [ZipInfo(filename)] ends the name at its first NUL character; where
    [os.sep] is [/], as here, it changes nothing else. *)
Fixpoint ZipInfo_filename (filename : string) : string :=
  match filename with
  | EmptyString => ""
  | String c filename' =>
      if Ascii.eqb c "000" then ""
      else String c (ZipInfo_filename filename')
  end.

(** The number of bytes of the name as [zipfile] writes it, in ASCII when
    it can and in UTF-8 otherwise: one for a character below 128, two for
    another one. *)
Fixpoint encoded_length (filename : string) : N :=
  match filename with
  | EmptyString => 0
  | String c filename' =>
      ((if N_of_ascii c <? 128 then 1 else 2)
       + encoded_length filename')%N
  end.

(** [zip_file.writestr(name, data)]: the name is cut as [ZipInfo] does; the
    test [zinfo.filename[-1] == '/'] raises [IndexError] when nothing is
    left of it; a name already there gives a [UserWarning], no exception;
    the header of the member holds the length of the name on two bytes, and
    packing it raises [struct.error] for a longer name; otherwise a member
    is appended, compressed as the archive says. *)
Definition writestr (z : zip_file) (name : string) (data : bytes)
    : (zip_exn + zip_file) * list event :=
  match ZipInfo_filename name with
  | EmptyString => (inl (IndexError "string index out of range"), [])
  | String _ _ as filename =>
      let w :=
        if existsb (fun m => String.eqb (member_name m) filename)
             (zip_members z)
        then [warn_duplicate_name filename]
        else [] in
      if (65535 <? encoded_length filename)%N
      then (inl (struct_error "ushort format requires 0 <= number <= 65535"),
            w)
      else (inr {| zip_compression := zip_compression z;
                   zip_members :=
                     zip_members z
                     ++ [{| member_name := filename;
                            member_compression := zip_compression z;
                            member_data := data |}] |},
            w)
  end.

(** [for file_name, file_data in files_data.items()] of [create_zip_file]:
    the archive written or the exception raised, and the warnings given
    until then. *)
Fixpoint write_items (items : dict) (z : zip_file)
    : (zip_exn + zip_file) * list event :=
  match items with
  | [] => (inr z, [])
  | (file_name, file_data) :: items' =>
      let clean_name := last_item (split "/" file_name) in
      match writestr z clean_name file_data with
      | (inl e, w) => (inl e, w)
      | (inr z', w) =>
          let '(r, w') := write_items items' z' in
          (r, (w ++ w')%list)
      end
  end.

(** [create_zip_file(files_data)]; nothing in it catches an exception. *)
Definition create_zip_file (files_data : dict)
    : (zip_exn + zip_file) * list event :=
  write_items files_data
    {| zip_compression := ZIP_DEFLATED; zip_members := [] |}.

(** Reading an archive back: the name and the bytes of each member of
    [infolist()], in order. *)
Definition extract (z : zip_file) : list (string * bytes) :=
  map (fun m => (member_name m, member_data m)) (zip_members z).

(** ** Download *)

(** [download_file(s3_client, bucket, key)]; [get_object key] is what
    [s3_client.get_object] and the reading of the body give: the bytes, or
    [inl] of the text of the exception raised. *)
Definition download_file (get_object : string -> string + bytes)
    (key : string) : option bytes * list event :=
  match get_object key with
  | inr body => (Some body, [ev_get_object key])
  | inl msg =>
      (None,
       [ev_get_object key;
        st_error ("Error downloading " ++ key ++ ": " ++ msg)])
  end.

(** [for i, file_info in enumerate(selected_files)] of the bulk download;
    [i] counts the files done and [total] is [len(selected_files)].  The test
    [if file_data:] holds for bytes that are there and not empty. *)
Fixpoint download_selected (get_object : string -> string + bytes)
    (selected_files : list file_info) (i total : nat) (files_data : dict)
    : dict * list event :=
  match selected_files with
  | [] => (files_data, [])
  | file_info :: rest =>
      let '(file_data, log) := download_file get_object (Key file_info) in
      let files_data' :=
        match file_data with
        | Some (b :: data) =>
            dict_set files_data (FileName file_info) (b :: data)
        | Some [] | None => files_data
        end in
      let '(d, log') :=
        download_selected get_object rest (S i) total files_data' in
      (d, (log ++ st_progress (S i) total :: log')%list)
  end.

(** The "Download Selected as ZIP" button: the archive offered for download,
    if any, and the calls made.  An exception of [create_zip_file] is not
    caught: the run ends with it, and nothing is offered. *)
Definition download_selected_as_zip (get_object : string -> string + bytes)
    (selected_files : list file_info)
    : option (zip_exn + zip_file) * list event :=
  let '(files_data, log) :=
    download_selected get_object selected_files 0 (length selected_files) []
  in
  match files_data with
  | [] => (None, log)
  | _ :: _ =>
      match create_zip_file files_data with
      | (inr zip_data, w) =>
          (Some (inr zip_data),
           (log ++ w ++ [st_success_zip_ready (length files_data)])%list)
      | (inl e, w) => (Some (inl e), (log ++ w)%list)
      end
  end.

(** ** Vocabulary of the specification *)

(** The catalog: the objects whose key ends in [.pdf] whatever the case,
    each turned into its record, in the order listed. *)
Definition catalog_of (objects : list s3_object) : list file_info :=
  map make_file_info
    (List.filter (fun obj => is_pdf_key (obj_Key obj)) objects).

(** The lower-cased key ends in [.pdf]. *)
Definition ends_with_pdf (key : string) : Prop :=
  exists stem, lower key = stem ++ ".pdf".

(** [name] is what follows the last [/] of [key], or [key] without [/]. *)
Definition is_basename_of (name key : string) : Prop :=
  char_in "/" name = false /\
  (key = name \/ exists dir, key = dir ++ "/" ++ name).

Definition catalog_entry_ok (f : file_info) : Prop :=
  ends_with_pdf (Key f) /\ is_basename_of (FileName f) (Key f).

(** [select P l m]: [m] holds the elements of [l] that satisfy [P], as often
    and in the order they come in [l]. *)
Inductive select {A : Type} (P : A -> Prop) : list A -> list A -> Prop :=
| select_nil : select P [] []
| select_keep x l m : P x -> select P l m -> select P (x :: l) (x :: m)
| select_skip x l m : ~ P x -> select P l m -> select P (x :: l) m.

(** The file name is the requested name, whatever the case. *)
Definition exact_match (name : string) (f : file_info) : Prop :=
  lower (FileName f) = lower name.

(** The file name holds the requested name, whatever the case. *)
Definition substring_match (name : string) (f : file_info) : Prop :=
  exists pre post, lower (FileName f) = pre ++ lower name ++ post.

(** What one requested name adds to the matched sequence: the exact matches
    when there is one, and the substring matches when there is none. *)
Definition name_match_spec (catalog : list file_info) (name : string)
    (added : list file_info) : Prop :=
  exists exact,
    select (exact_match name) catalog exact /\
    ((exact <> [] /\ added = exact) \/
     (exact = [] /\ select (substring_match name) catalog added)).

(** The requested names once trimmed, the blank ones dropped. *)
Definition requested_names (target_files : list string) : list string :=
  List.filter (fun name => negb (String.eqb name ""))
    (map strip target_files).

(** What the body of the loop of [find_specific_pdfs] adds for one name. *)
Definition matches_of (all_s3_files : list file_info) (name : string)
    : list file_info :=
  match List.filter (fun f => String.eqb (lower (FileName f)) (lower name))
          all_s3_files with
  | [] =>
      List.filter (fun f => contains (lower (FileName f)) (lower name))
        all_s3_files
  | exact_matches => exact_matches
  end.

(** The test of [search_by_pattern] on one object. *)
Definition pattern_hit {E : PatternEngine} (r : regex) (obj : s3_object)
    : bool :=
  re_search r (obj_Key obj)
  || re_search r (last_item (split "/" (obj_Key obj))).

(** The pattern matches somewhere in [s]. *)
Definition occurs {E : PatternEngine} {L : PatternEngineLaws E}
    (r : regex) (s : string) : Prop :=
  exists pre m post, s = pre ++ m ++ post /\ re_matches r pre m post.

(** The log tells of a pattern that does not compile. *)
Definition invalid_pattern_reported (log : list event) : Prop :=
  exists msg, In (st_error ("Invalid regex pattern: " ++ msg)) log.

(** What [find_specific_pdfs] tells of a listing that fails. *)
Definition listing_error_text (e : listing_exn) : string :=
  match e with
  | ClientError msg => "Error accessing S3 bucket: " ++ msg
  | OtherException msg => "Unexpected error: " ++ msg
  end.

(** ** Sample data *)

Definition sample_object (key : string) (size : Z) : s3_object :=
  {| obj_Key := key; obj_Size := size; obj_LastModified := 0 |}.

(** Two pages with objects and one without ['Contents']. *)
Definition report_listing : pages :=
  NextPage (Some [sample_object "docs/Report.PDF" 1536;
                  sample_object "docs/Report_v2.pdf" 2048;
                  sample_object "docs/notes.txt" 10])
    (NextPage None
       (NextPage (Some [sample_object "annual_report_2024.pdf" 1073741824])
          NoMorePages)).

(** The unmatched names of the specification: the requested names, lower
    case, to which neither way of matching gives an entry. *)
Definition unmatched_requested (catalog : list file_info)
    (target_files : list string) : gset string :=
  list_to_set
    (map lower
       (List.filter
          (fun name =>
             match matches_of catalog name with
             | [] => true
             | _ :: _ => false
             end)
          (requested_names target_files))).

(** A listing with [a.pdf] only. *)
Definition a_listing : pages :=
  NextPage (Some [sample_object "a.pdf" 512]) NoMorePages.

(** A listing whose first page comes and whose second request is refused. *)
Definition denied_listing : pages :=
  NextPage (Some [sample_object "a.pdf" 512])
    (PageRaises (ClientError "AccessDenied")).

(** The name that [create_zip_file] gives to [zipfile] for a name of the
    [dict], as [zipfile] keeps it. *)
Definition archive_name (file_name : string) : string :=
  ZipInfo_filename (last_item (split "/" file_name)).

(** The member that [create_zip_file] writes for one item of the [dict]. *)
Definition member_of (item : string * bytes) : zip_member :=
  {| member_name := archive_name (fst item);
     member_compression := ZIP_DEFLATED;
     member_data := snd item |}.

(** What [writestr] raises for a name as [ZipInfo] has cut it, if it
    raises. *)
Definition name_fault (filename : string) : option zip_exn :=
  if String.eqb filename "" then
    Some (IndexError "string index out of range")
  else if (65535 <? encoded_length filename)%N then
    Some (struct_error "ushort format requires 0 <= number <= 65535")
  else None.

(** A name that [zipfile] takes as it is: not empty, without NUL character,
    and written in 65535 bytes at most. *)
Definition storable (name : string) : Prop :=
  name <> "" /\ char_in "000" name = false /\
  (encoded_length name <= 65535)%N.

(** The archive of a [dict], each item under its own name. *)
Definition archive_of (files_data : dict) : zip_file :=
  {| zip_compression := ZIP_DEFLATED;
     zip_members :=
       map (fun item => {| member_name := fst item;
                           member_compression := ZIP_DEFLATED;
                           member_data := snd item |}) files_data |}.

(** Names that lose their base name: both end in [/]. *)
Definition folder_names : dict :=
  [("a/", [Byte.x01]); ("b/", [Byte.x02])].

(** Two names of different folders that end alike. *)
Definition colliding_files : dict :=
  [("2023/report.pdf", [Byte.x01; Byte.x02]);
   ("2024/report.pdf", [Byte.x03])].

(** The keys asked from the store, in the order asked. *)
Definition fetched (log : list event) : list string :=
  flat_map (fun e => match e with ev_get_object key => [key] | _ => [] end)
    log.

(** The errors told, in the order told. *)
Definition errors (log : list event) : list event :=
  List.filter (fun e => match e with st_error _ => true | _ => false end) log.

(** The error that the download of one file tells, if it fails. *)
Definition download_error (get_object : string -> string + bytes)
    (f : file_info) : list event :=
  match get_object (Key f) with
  | inl msg => [st_error ("Error downloading " ++ Key f ++ ": " ++ msg)]
  | inr _ => []
  end.

(** The selected files whose download succeeds, by file name, in the order
    selected. *)
Definition succeeded_downloads (get_object : string -> string + bytes)
    (selected_files : list file_info) : list (string * bytes) :=
  flat_map
    (fun f => match get_object (Key f) with
              | inr data => [(FileName f, data)]
              | inl _ => []
              end)
    selected_files.

(** Those of them that the loop keeps: the ones with a byte at least. *)
Definition kept_downloads (get_object : string -> string + bytes)
    (selected_files : list file_info) : list (string * bytes) :=
  flat_map
    (fun f => match get_object (Key f) with
              | inr (b :: data) => [(FileName f, b :: data)]
              | inr [] | inl _ => []
              end)
    selected_files.

(** The [dict] that successive assignments build. *)
Definition dict_from (d : dict) (items : list (string * bytes)) : dict :=
  fold_left (fun d item => dict_set d (fst item) (snd item)) items d.

(** A store with two reports of the same name, a file that cannot be read
    and an empty file. *)
Definition sample_store (key : string) : string + bytes :=
  if String.eqb key "2023/report.pdf" then inr [Byte.x01; Byte.x02]
  else if String.eqb key "2024/report.pdf" then inr [Byte.x03]
  else if String.eqb key "notes/minutes.pdf" then inr [Byte.x04]
  else if String.eqb key "empty.pdf" then inr []
  else inl "NoSuchKey".

Definition same_name_selection : list file_info :=
  [make_file_info (sample_object "2023/report.pdf" 2);
   make_file_info (sample_object "2024/report.pdf" 1)].

Definition partial_selection : list file_info :=
  [make_file_info (sample_object "2023/report.pdf" 2);
   make_file_info (sample_object "gone.pdf" 7);
   make_file_info (sample_object "notes/minutes.pdf" 1)].

(** ** The form and the session *)

(** The names read from the text area or from the uploaded file: the lines of
    the input, trimmed, without the blank ones; none when the input is
    empty. *)
Definition parse_names (filenames_input : string) : list string :=
  if String.eqb filenames_input "" then []
  else
    map strip
      (List.filter (fun name => negb (String.eqb (strip name) ""))
         (split "010" filenames_input)).

Inductive extraction_method :=
| SpecificFilenames
| PatternSearch
| BrowseAllPDFs.

Inductive pattern_type := ContainsText | StartsWith | EndsWith | Regex.

(** The pattern of the "Pattern Search" method; [re_escape] is [re.escape]
    and [text] what the user typed. *)
Definition build_pattern (re_escape : string -> string) (ty : pattern_type)
    (text : string) : string :=
  match ty with
  | ContainsText =>
      if String.eqb text "" then "" else ".*" ++ re_escape text ++ ".*"
  | StartsWith =>
      if String.eqb text "" then "" else "^" ++ re_escape text ++ ".*"
  | EndsWith =>
      if String.eqb text "" then "" else ".*" ++ re_escape text ++ "\.pdf$"
  | Regex => text
  end.

(** The test that shows the search button. *)
Definition search_enabled (bucket_name : string) (method : extraction_method)
    (target_files : list string) (pattern : string) : bool :=
  negb (String.eqb bucket_name "")
  && match method with
     | BrowseAllPDFs => true
     | SpecificFilenames =>
         match target_files with [] => false | _ :: _ => true end
     | PatternSearch => negb (String.eqb pattern "")
     end.

(** [st.session_state.found_files] after a branch of the search button:
    [None] while the key is not there. *)
Definition update_found (session : option (list file_info))
    (stored : option (list file_info)) : option (list file_info) :=
  match stored with
  | Some found_files => Some found_files
  | None => session
  end.

(** The test that shows the "Found PDFs" part of the page. *)
Definition shows_found (session : option (list file_info)) : bool :=
  match session with
  | Some (_ :: _) => true
  | Some [] | None => false
  end.

(** The steps of the progress bar, in order. *)
Definition progress_of (log : list event) : list (nat * nat) :=
  flat_map
    (fun e => match e with st_progress i n => [(i, n)] | _ => [] end) log.

(** The duplicate names warned of, in order. *)
Definition warnings_of (log : list event) : list string :=
  flat_map
    (fun e => match e with warn_duplicate_name n => [n] | _ => [] end) log.

(** The lookup [d[k]] of a [dict]. *)
Fixpoint dict_get (d : dict) (k : string) : option bytes :=
  match d with
  | [] => None
  | (k', v) :: d' => if String.eqb k' k then Some v else dict_get d' k
  end.

(** The same objects as [report_listing], one to a page. *)
Definition report_listing_by_one : pages :=
  NextPage (Some [sample_object "docs/Report.PDF" 1536])
    (NextPage (Some [sample_object "docs/Report_v2.pdf" 2048])
       (NextPage (Some [sample_object "docs/notes.txt" 10])
          (NextPage (Some [sample_object "annual_report_2024.pdf" 1073741824])
             NoMorePages))).

(** [re.escape] as of Python 3.7: a backslash goes before each of the
    characters of [escaped_chars], the ones with a meaning in a pattern and
    the white space; the others stay as they are. *)
Definition escaped_chars : string :=
  "()[]{}?*+-|^$\.&~# "
  ++ String "009"
       (String "010" (String "013" (String "011" (String "012" "")))).

Fixpoint re_escape (s : string) : string :=
  match s with
  | EmptyString => EmptyString
  | String c s' =>
      if char_in c escaped_chars
      then String "\" (String c (re_escape s'))
      else String c (re_escape s')
  end.

(** The tokens of a text taken character by character. *)
Fixpoint literal_tokens (text : string) : list MiniRe.token :=
  match text with
  | EmptyString => []
  | String c text' => MiniRe.TAtom (MiniRe.Chr c) :: literal_tokens text'
  end.

(** * Properties *)

(** ** Strings *)

Example lower_mixed : lower "Report_V2.PDF" = "report_v2.pdf".
Proof. reflexivity. Qed.

Example strip_both_ends : strip (String "009" "  a b.pdf  ") = "a b.pdf".
Proof. reflexivity. Qed.

Example strip_blank : strip "   " = "".
Proof. reflexivity. Qed.

Example split_path : split "/" "a/b/c.pdf" = ["a"; "b"; "c.pdf"].
Proof. reflexivity. Qed.

Example split_trailing_slash : split "/" "a/" = ["a"; ""].
Proof. reflexivity. Qed.

Example endswith_pdf :
  endswith "x.pdf" ".pdf" = true /\ endswith "x.pdf.bak" ".pdf" = false.
Proof. split; reflexivity. Qed.

Example contains_inside :
  contains "annual_report_2024.pdf" "report" = true
  /\ contains "annual.pdf" "report" = false.
Proof. split; reflexivity. Qed.

Lemma append_assoc (a b c : string) : (a ++ b) ++ c = a ++ (b ++ c).
Proof.
  induction a as [|x a IH]; [reflexivity|].
  change (String x ((a ++ b) ++ c) = String x (a ++ (b ++ c))).
  now rewrite IH.
Qed.

Lemma append_nil_r (a : string) : a ++ "" = a.
Proof.
  induction a as [|x a IH]; [reflexivity|].
  change (String x (a ++ "") = String x a). now rewrite IH.
Qed.

Lemma append_cons (x : ascii) (a b : string) :
  String x a ++ b = String x (a ++ b).
Proof. reflexivity. Qed.

Lemma startswith_spec (s p : string) :
  startswith s p = true <-> exists post, s = p ++ post.
Proof.
  revert s. induction p as [|a p IH]; intros s.
  - destruct s; cbn; split; eauto.
  - destruct s as [|b s]; cbn [startswith].
    + split; [discriminate|]. intros [post H]. discriminate.
    + rewrite andb_true_iff, Ascii.eqb_eq, IH. split.
      * intros [-> [post ->]]. exists post. reflexivity.
      * intros [post H]. rewrite append_cons in H. injection H as -> ->. eauto.
Qed.

Lemma endswith_spec (s suf : string) :
  endswith s suf = true <-> exists pre, s = pre ++ suf.
Proof.
  induction s as [|c s IH]; cbn [endswith].
  - rewrite orb_false_r, String.eqb_eq. split.
    + intros ->. exists "". reflexivity.
    + intros [[|x pre] H]; [exact H|discriminate].
  - rewrite orb_true_iff, String.eqb_eq, IH. split.
    + intros [->|[pre ->]]; [exists ""|exists (String c pre)]; reflexivity.
    + intros [[|x pre] H]; [left; exact H|right].
      rewrite append_cons in H. injection H as -> ->. eauto.
Qed.

Lemma contains_spec (s sub : string) :
  contains s sub = true <-> exists pre post, s = pre ++ sub ++ post.
Proof.
  induction s as [|c s IH]; cbn [contains].
  - rewrite orb_false_r, startswith_spec. split.
    + intros [post ->]. exists "", post. reflexivity.
    + intros [[|x pre] [post H]]; [eauto|discriminate].
  - rewrite orb_true_iff, startswith_spec, IH. split.
    + intros [[post ->]|(pre & post & ->)];
        [exists "", post|exists (String c pre), post]; reflexivity.
    + intros [[|x pre] [post H]]; [left; eauto|right].
      rewrite append_cons in H. injection H as -> ->. eauto.
Qed.

Lemma split_nonempty (sep : ascii) (s : string) : split sep s <> [].
Proof.
  destruct s as [|c s]; cbn [split]; [discriminate|].
  destruct (Ascii.eqb c sep); [discriminate|].
  destruct (split sep s); discriminate.
Qed.

Lemma split_segments (sep : ascii) (s : string) :
  Forall (fun seg => char_in sep seg = false) (split sep s).
Proof.
  induction s as [|c s IH]; cbn [split].
  - repeat constructor.
  - destruct (Ascii.eqb c sep) eqn:Hc.
    + constructor; [reflexivity|exact IH].
    + destruct (split sep s) as [|seg rest].
      * repeat constructor. cbn. rewrite Ascii.eqb_sym, Hc. reflexivity.
      * inversion IH; subst. constructor; [|assumption].
        cbn. rewrite Ascii.eqb_sym, Hc. assumption.
Qed.

Lemma split_concat (sep : ascii) (s : string) :
  String.concat (String sep "") (split sep s) = s.
Proof.
  induction s as [|c s IH]; cbn [split]; [reflexivity|].
  destruct (Ascii.eqb_spec c sep) as [->|Hc].
  - pose proof (split_nonempty sep s) as Hne.
    destruct (split sep s) as [|seg rest]; [congruence|].
    cbn [String.concat] in *. rewrite IH. reflexivity.
  - pose proof (split_nonempty sep s) as Hne.
    destruct (split sep s) as [|seg rest]; [congruence|].
    destruct rest as [|seg' rest]; cbn [String.concat] in *;
      rewrite <- IH; reflexivity.
Qed.

Lemma concat_last (sep : string) (l : list string) :
  l <> [] ->
  String.concat sep l = last_item l \/
  exists dir, String.concat sep l = dir ++ sep ++ last_item l.
Proof.
  unfold last_item.
  induction l as [|x l IH]; [congruence|]. intros _.
  destruct l as [|y l]; [left; reflexivity|].
  right. destruct IH as [IH|[dir IH]]; [discriminate|..].
  - exists x. cbn [String.concat List.last] in *. rewrite IH. reflexivity.
  - exists (x ++ sep ++ dir). cbn [String.concat List.last] in *.
    rewrite IH, !append_assoc. reflexivity.
Qed.

Lemma last_item_Forall (P : string -> Prop) (l : list string) :
  l <> [] -> Forall P l -> P (last_item l).
Proof.
  unfold last_item. induction l as [|x l IH]; [congruence|].
  intros _ H. inversion H; subst.
  destruct l; [assumption|]. apply IH; [discriminate|assumption].
Qed.

Lemma basename_spec (key : string) :
  let name := last_item (split "/" key) in
  char_in "/" name = false /\
  (key = name \/ exists dir, key = dir ++ "/" ++ name).
Proof.
  cbn zeta. split.
  - apply (last_item_Forall (fun seg => char_in "/" seg = false));
      [apply split_nonempty|apply split_segments].
  - pose proof (concat_last "/" (split "/" key) (split_nonempty _ _)) as H.
    rewrite split_concat in H. exact H.
Qed.

(** ** Size formatter *)

Example format_file_size_1280 : format_file_size 1280 = "1.2 KB".
Proof. vm_compute. reflexivity. Qed.

Example format_file_size_below_unit :
  format_file_size (1024 * 1024 - 1) = "1024.0 KB".
Proof. vm_compute. reflexivity. Qed.

Example format_file_size_2tb : format_file_size (2 ^ 41) = "2048.0 GB".
Proof. vm_compute. reflexivity. Qed.

Lemma round_half_even_near (a : Z) (b : positive) :
  2 * Z.abs (a - round_half_even (a # b) * Z.pos b) <= Z.pos b.
Proof.
  unfold round_half_even. cbn [Qfloor].
  pose proof (Z.div_mod a (Z.pos b) ltac:(lia)) as Hdm.
  pose proof (Z.mod_pos_bound a (Z.pos b) ltac:(lia)) as Hb.
  set (f := a / Z.pos b) in *.
  unfold Qcompare, Qminus, Qplus, Qopp, inject_Z. cbn [Qnum Qden].
  destruct (Z.compare_spec ((a * 1 + - f * Z.pos b) * 2) (1 * Z.pos (b * 1)))
    as [H|H|H]; [destruct (Z.even f)|..]; lia.
Qed.

Lemma round_half_even_nonneg (a : Z) (b : positive) :
  0 <= a -> 0 <= round_half_even (a # b).
Proof.
  intros Ha. unfold round_half_even. cbn [Qfloor].
  assert (0 <= a / Z.pos b) by (apply Z.div_pos; lia).
  destruct (Qcompare _ _); [destruct (Z.even _)|..]; lia.
Qed.

Lemma Qdiv_1024 (n : Z) (d : positive) :
  ((n # d) / 1024)%Q = (n # d * 1024).
Proof. unfold Qdiv, Qmult, Qinv. cbn. rewrite Z.mul_1_r. reflexivity. Qed.

Lemma Qle_bool_1024 (n : Z) (d : positive) :
  Qle_bool 1024 (n # d) = (1024 * Z.pos d <=? n).
Proof. unfold Qle_bool. cbn [Qnum Qden]. rewrite Z.mul_1_r. reflexivity. Qed.

Lemma scale_loop_step fuel (n : Z) (d : positive) (i : nat) :
  scale_loop (S fuel) (n # d) i =
  if (1024 * Z.pos d <=? n) && (i <? 3)%nat
  then scale_loop fuel (n # d * 1024) (S i) else (n # d, i).
Proof. cbn [scale_loop]. rewrite Qle_bool_1024, Qdiv_1024. reflexivity. Qed.

(** The loop leaves by its own test, not for lack of fuel: it stops at the
    first unit under which the size is below 1024, or at the last unit. *)
Lemma scale_loop_exit (n : Z) :
  exists (d : positive) (i : nat),
    scale_loop (length size_names) (inject_Z n) 0 = (n # d, i) /\
    Z.pos d = 1024 ^ Z.of_nat i /\ (i <= 3)%nat /\
    (i = 0%nat \/ 1024 ^ Z.of_nat i <= n) /\
    (i = 3%nat \/ n < 1024 ^ (Z.of_nat i + 1)).
Proof.
  unfold inject_Z. change (length size_names) with 4%nat.
  rewrite scale_loop_step.
  destruct (Z.leb_spec (1024 * 1) n) as [H1|H1]; cbn [andb Nat.ltb Nat.leb];
    [|exists 1%positive, 0%nat; repeat split; auto; right; lia].
  rewrite scale_loop_step.
  destruct (Z.leb_spec (1024 * Z.pos (1 * 1024)) n) as [H2|H2];
    cbn [andb Nat.ltb Nat.leb];
    [|exists (1 * 1024)%positive, 1%nat; repeat split; auto; right; lia].
  rewrite scale_loop_step.
  destruct (Z.leb_spec (1024 * Z.pos (1 * 1024 * 1024)) n) as [H3|H3];
    cbn [andb Nat.ltb Nat.leb];
    [|exists (1 * 1024 * 1024)%positive, 2%nat; repeat split; auto;
      right; lia].
  rewrite scale_loop_step.
  replace ((3 <? 3)%nat) with false by reflexivity. rewrite andb_false_r.
  exists (1 * 1024 * 1024 * 1024)%positive, 3%nat; repeat split; auto;
    right; lia.
Qed.

Lemma format_1f_pos (n : Z) (d : positive) :
  0 < n ->
  exists whole tenth,
    0 <= whole /\ 0 <= tenth <= 9 /\
    2 * Z.abs (10 * n - (10 * whole + tenth) * Z.pos d) <= Z.pos d /\
    format_1f (n # d) =
      str_of_N (Z.to_N whole) ++ "." ++ str_of_N (Z.to_N tenth).
Proof.
  intros Hn. unfold format_1f.
  destruct (Qlt_le_dec (n # d) 0) as [Hneg|_].
  { unfold Qlt in Hneg. cbn in Hneg. lia. }
  unfold Qabs, Qmult. cbn [Qnum Qden].
  rewrite Pos.mul_1_r, (Z.abs_eq n) by lia.
  set (t := round_half_even (n * 10 # d)).
  pose proof (round_half_even_near (n * 10) d) as Hnear. fold t in Hnear.
  pose proof (round_half_even_nonneg (n * 10) d ltac:(lia)) as Hpos.
  fold t in Hpos.
  exists (t / 10), (t mod 10).
  pose proof (Z.div_mod t 10 ltac:(lia)).
  pose proof (Z.mod_pos_bound t 10 ltac:(lia)).
  assert (0 <= t / 10) by (apply Z.div_pos; lia).
  repeat split; lia.
Qed.

(** C9.  [format_file_size 0] is ["0B"].  For a size [n > 0] (below [2^53],
    where the floating-point computation is exact) the size is divided by
    1024 [i] times, [i] being the first of B, KB, MB, GB under which the
    quotient is below 1024, or GB when there is none; the text is the
    quotient [n / 1024^i] rounded to the nearest tenth, written with its
    integer part, a point and one digit, then a space and the unit.  And
    [format_file_size 1536 = "1.5 KB"],
    [format_file_size 1073741824 = "1.0 GB"]. *)
Theorem format_file_size_spec :
  format_file_size 0 = "0B" /\
  (forall n : Z, 0 < n < 2 ^ 53 ->
     exists (i : nat) (whole tenth : Z),
       (i <= 3)%nat /\
       (i = 0%nat \/ 1024 ^ Z.of_nat i <= n) /\
       (i = 3%nat \/ n < 1024 ^ (Z.of_nat i + 1)) /\
       0 <= whole /\ 0 <= tenth <= 9 /\
       2 * Z.abs (10 * n - (10 * whole + tenth) * 1024 ^ Z.of_nat i)
         <= 1024 ^ Z.of_nat i /\
       format_file_size n =
         str_of_N (Z.to_N whole) ++ "." ++ str_of_N (Z.to_N tenth)
         ++ " " ++ nth i size_names "") /\
  format_file_size 1536 = "1.5 KB" /\
  format_file_size 1073741824 = "1.0 GB".
Proof.
  split; [reflexivity|]. split; [|split; vm_compute; reflexivity].
  intros n [Hn _].
  destruct (scale_loop_exit n) as (d & i & Hloop & Hd & Hi & Hlo & Hhi).
  destruct (format_1f_pos n d Hn) as (whole & tenth & Hw & Ht & Hnear & Hfmt).
  exists i, whole, tenth. rewrite <- Hd.
  repeat split; try assumption; try lia.
  unfold format_file_size.
  destruct (Z.eqb_spec n 0) as [->|_]; [lia|].
  rewrite Hloop, Hfmt, !append_assoc. reflexivity.
Qed.

Lemma format_file_size_spec_witness :
  exists (i : nat) (whole tenth : Z),
    (i <= 3)%nat /\
    (i = 0%nat \/ 1024 ^ Z.of_nat i <= 1536) /\
    (i = 3%nat \/ 1536 < 1024 ^ (Z.of_nat i + 1)) /\
    0 <= whole /\ 0 <= tenth <= 9 /\
    2 * Z.abs (10 * 1536 - (10 * whole + tenth) * 1024 ^ Z.of_nat i)
      <= 1024 ^ Z.of_nat i /\
    format_file_size 1536 =
      str_of_N (Z.to_N whole) ++ "." ++ str_of_N (Z.to_N tenth)
      ++ " " ++ nth i size_names "".
Proof. apply (proj1 (proj2 format_file_size_spec) 1536). lia. Defined.

(** ** Catalog *)

Lemma collect_contents_spec (contents : list s3_object)
    (all_s3_files : list file_info) :
  collect_contents contents all_s3_files
  = (all_s3_files ++ catalog_of contents)%list.
Proof.
  unfold catalog_of. revert all_s3_files.
  induction contents as [|obj contents IH]; intros acc; cbn.
  - now rewrite app_nil_r.
  - destruct (is_pdf_key (obj_Key obj)); rewrite IH; [|reflexivity].
    cbn. now rewrite <- app_assoc.
Qed.

Lemma catalog_of_app (l1 l2 : list s3_object) :
  catalog_of (l1 ++ l2) = (catalog_of l1 ++ catalog_of l2)%list.
Proof. unfold catalog_of. now rewrite List.filter_app, map_app. Qed.

Lemma collect_pages_spec (ps : pages) (all_s3_files : list file_info) :
  collect_pages ps all_s3_files
  = match listing_outcome ps with
    | None => Ok (all_s3_files ++ catalog_of (listing_objects ps))%list
    | Some e => Raise e
    end.
Proof.
  revert all_s3_files.
  induction ps as [|[contents|] rest IH|e]; intros acc;
    cbn [collect_pages listing_outcome listing_objects].
  - now rewrite app_nil_r.
  - rewrite IH, collect_contents_spec, catalog_of_app.
    destruct (listing_outcome rest); [reflexivity|]. now rewrite app_assoc.
  - apply IH.
  - reflexivity.
Qed.

Lemma find_specific_pdfs_catalog (listing : pages)
    (target_files : list string) :
  snd (fst (find_specific_pdfs listing target_files))
  = match listing_outcome listing with
    | None => catalog_of (listing_objects listing)
    | Some _ => []
    end.
Proof.
  unfold find_specific_pdfs. rewrite collect_pages_spec.
  destruct (listing_outcome listing) as [[msg|msg]|]; reflexivity.
Qed.

Lemma make_file_info_ok (obj : s3_object) :
  is_pdf_key (obj_Key obj) = true -> catalog_entry_ok (make_file_info obj).
Proof.
  intros H. split; cbn.
  - apply endswith_spec. exact H.
  - apply basename_spec.
Qed.

Lemma catalog_of_ok (objects : list s3_object) :
  Forall catalog_entry_ok (catalog_of objects).
Proof.
  unfold catalog_of. induction objects as [|obj objects IH]; cbn.
  - constructor.
  - destruct (is_pdf_key (obj_Key obj)) eqn:H; [|exact IH].
    constructor; [now apply make_file_info_ok|exact IH].
Qed.

Section PatternCatalog.
Context {E : PatternEngine}.

Lemma search_contents_spec (r : regex) (contents : list s3_object)
    (found_files : list file_info) :
  search_contents r contents found_files
  = (found_files ++ catalog_of (List.filter (pattern_hit r) contents))%list.
Proof.
  unfold catalog_of, pattern_hit. revert found_files.
  induction contents as [|obj contents IH]; intros acc; cbn.
  - now rewrite app_nil_r.
  - destruct (is_pdf_key (obj_Key obj)) eqn:Hpdf.
    + destruct (re_search r (obj_Key obj) || _); rewrite IH; [|reflexivity].
      cbn. rewrite Hpdf. cbn. now rewrite <- app_assoc.
    + rewrite IH. destruct (re_search r (obj_Key obj) || _); [|reflexivity].
      cbn. now rewrite Hpdf.
Qed.

Lemma search_pages_spec (r : regex) (ps : pages)
    (found_files : list file_info) :
  search_pages r ps found_files
  = match listing_outcome ps with
    | None =>
        Ok (found_files
            ++ catalog_of
                 (List.filter (pattern_hit r) (listing_objects ps)))%list
    | Some e => Raise e
    end.
Proof.
  revert found_files.
  induction ps as [|[contents|] rest IH|e]; intros acc;
    cbn [search_pages listing_outcome listing_objects].
  - now rewrite app_nil_r.
  - rewrite IH, search_contents_spec, List.filter_app, catalog_of_app.
    destruct (listing_outcome rest); [reflexivity|]. now rewrite app_assoc.
  - apply IH.
  - reflexivity.
Qed.

Lemma search_by_pattern_spec (listing : pages) (pattern : string) :
  fst (search_by_pattern listing pattern)
  = match re_compile pattern, listing_outcome listing with
    | inr r, None =>
        catalog_of (List.filter (pattern_hit r) (listing_objects listing))
    | _, _ => []
    end.
Proof.
  unfold search_by_pattern. destruct (re_compile pattern) as [[msg|msg]|r];
    [reflexivity|reflexivity|].
  rewrite search_pages_spec. destruct (listing_outcome listing); reflexivity.
Qed.

End PatternCatalog.

(** C4.  Whatever the listing, the catalog that [find_specific_pdfs] builds
    holds the objects whose lower-cased key ends in [.pdf], in the order
    listed, and nothing else (it is empty when the listing fails); every
    entry has a key that ends in [.pdf] once lower-cased and a file name that
    is what follows the last [/] of the key, the whole key when it has no
    [/]; a key that does not end in [.pdf] is not in the catalog.  The
    entries that [search_by_pattern] returns are built the same way. *)
Theorem catalog_entries_are_pdfs {E : PatternEngine} (listing : pages)
    (target_files : list string) (pattern : string) :
  let catalog := snd (fst (find_specific_pdfs listing target_files)) in
  catalog = match listing_outcome listing with
            | None => catalog_of (listing_objects listing)
            | Some _ => []
            end /\
  Forall catalog_entry_ok catalog /\
  (forall key, ~ ends_with_pdf key -> ~ In key (map Key catalog)) /\
  Forall catalog_entry_ok (fst (search_by_pattern listing pattern)).
Proof.
  cbn zeta. rewrite find_specific_pdfs_catalog, search_by_pattern_spec.
  assert (Hcat : Forall catalog_entry_ok
                   match listing_outcome listing with
                   | None => catalog_of (listing_objects listing)
                   | Some _ => []
                   end).
  { destruct (listing_outcome listing); [constructor|apply catalog_of_ok]. }
  split; [reflexivity|]. split; [exact Hcat|]. split.
  - intros key Hkey Hin. apply in_map_iff in Hin as (f & <- & Hf).
    rewrite List.Forall_forall in Hcat. apply Hkey, (Hcat f Hf).
  - destruct (re_compile pattern); [constructor|].
    destruct (listing_outcome listing); [constructor|apply catalog_of_ok].
Qed.

Lemma catalog_entries_are_pdfs_witness :
  ~ In "docs/notes.txt"
      (map Key (snd (fst (find_specific_pdfs report_listing ["a.pdf"])))).
Proof.
  apply (proj1 (proj2 (proj2
    (catalog_entries_are_pdfs (E := MiniRe.engine)
       report_listing ["a.pdf"] ".*")))).
  intros H. apply endswith_spec in H. vm_compute in H. discriminate H.
Defined.

(** ** Matching by names *)

Lemma select_filter {A : Type} (P : A -> Prop) (p : A -> bool) (l : list A) :
  (forall x, p x = true <-> P x) -> select P l (List.filter p l).
Proof.
  intros Hp. induction l as [|x l IH]; cbn; [constructor|].
  destruct (p x) eqn:Hx.
  - apply select_keep; [now apply Hp|exact IH].
  - apply select_skip; [|exact IH]. intros HP. apply Hp in HP. congruence.
Qed.

Lemma select_functional {A : Type} (P : A -> Prop) (l m1 m2 : list A) :
  select P l m1 -> select P l m2 -> m1 = m2.
Proof.
  intros H1. revert m2. induction H1; intros m2 H2; inversion H2; subst;
    try reflexivity; try contradiction; auto.
  f_equal. auto.
Qed.

Lemma matches_of_spec (catalog : list file_info) (name : string) :
  name_match_spec catalog name (matches_of catalog name).
Proof.
  unfold name_match_spec, matches_of.
  pose proof (select_filter (exact_match name)
    (fun f => String.eqb (lower (FileName f)) (lower name)) catalog
    (fun f => String.eqb_eq _ _)) as Hexact.
  pose proof (select_filter (substring_match name)
    (fun f => contains (lower (FileName f)) (lower name)) catalog
    (fun f => contains_spec _ _)) as Hsub.
  destruct (List.filter _ catalog) as [|f exact] eqn:He in Hexact |- *.
  - exists []. split; [exact Hexact|]. right. split; [reflexivity|exact Hsub].
  - exists (f :: exact). split; [exact Hexact|]. left.
    split; [discriminate|reflexivity].
Qed.

Lemma match_targets_cons (t : string) (rest : list string)
    (all_s3_files found_files : list file_info) :
  match_targets (t :: rest) all_s3_files found_files
  = if String.eqb (strip t) "" then match_targets rest all_s3_files found_files
    else match_targets rest all_s3_files
           (found_files ++ matches_of all_s3_files (strip t)).
Proof.
  cbn [match_targets]. destruct (String.eqb (strip t) ""); [reflexivity|].
  unfold matches_of.
  destruct (List.filter _ all_s3_files) as [|f exact]; [|reflexivity].
  destruct (List.filter _ all_s3_files) as [|g part]; [|reflexivity].
  now rewrite app_nil_r.
Qed.

Lemma match_targets_spec (target_files : list string)
    (all_s3_files found_files : list file_info) :
  match_targets target_files all_s3_files found_files
  = (found_files
     ++ List.concat (map (matches_of all_s3_files)
                       (requested_names target_files)))%list.
Proof.
  unfold requested_names. revert found_files.
  induction target_files as [|t rest IH]; intros acc.
  - cbn. now rewrite app_nil_r.
  - rewrite match_targets_cons. cbn [map List.filter].
    destruct (String.eqb (strip t) ""); cbn [negb]; rewrite IH;
      [reflexivity|].
    cbn [map List.concat]. now rewrite <- app_assoc.
Qed.

Lemma matches_of_nil (name : string) : matches_of [] name = [].
Proof. reflexivity. Qed.

(** C1.  The matched sequence of [find_specific_pdfs] is, for the requested
    names trimmed and the blank ones dropped, taken in order, what each name
    adds: when some entry of the catalog has that file name whatever the
    case, exactly the entries that have it, and nothing found by substring;
    when none has, every entry whose file name holds the name whatever the
    case, which may be none.  With [Report.PDF] and [Report_v2.pdf] in the
    catalog, ["report.pdf"] matches [Report.PDF] only. *)
Theorem name_list_matching (listing : pages) (target_files : list string) :
  let found_files := fst (fst (find_specific_pdfs listing target_files)) in
  let catalog := snd (fst (find_specific_pdfs listing target_files)) in
  (exists added : list (list file_info),
     found_files = List.concat added /\
     Forall2 (name_match_spec catalog) (requested_names target_files) added)
  /\
  fst (fst (find_specific_pdfs report_listing ["report.pdf"]))
  = [make_file_info (sample_object "docs/Report.PDF" 1536)].
Proof.
  cbn zeta. split; [|vm_compute; reflexivity].
  assert (Hspec : forall catalog names,
            Forall2 (name_match_spec catalog) names
              (map (matches_of catalog) names)).
  { intros catalog names. induction names as [|n l IH]; cbn; constructor;
      [apply matches_of_spec|exact IH]. }
  unfold find_specific_pdfs.
  destruct (collect_pages listing []) as [all|[msg|msg]]; cbn [fst snd].
  - exists (map (matches_of all) (requested_names target_files)).
    split; [apply match_targets_spec|apply Hspec].
  - exists (map (matches_of []) (requested_names target_files)).
    split; [|apply Hspec].
    induction (requested_names target_files); cbn; [reflexivity|assumption].
  - exists (map (matches_of []) (requested_names target_files)).
    split; [|apply Hspec].
    induction (requested_names target_files); cbn; [reflexivity|assumption].
Qed.

(** ** Unmatched names *)

Lemma matches_of_incl (catalog : list file_info) (name : string)
    (f : file_info) :
  In f (matches_of catalog name) -> In f catalog.
Proof.
  unfold matches_of.
  destruct (List.filter _ catalog) as [|g exact] eqn:He.
  - intros H. now apply List.filter_In in H.
  - rewrite <- He. intros H. now apply List.filter_In in H.
Qed.

Lemma matches_of_exact (catalog : list file_info) (name : string)
    (f : file_info) :
  In f catalog -> lower (FileName f) = lower name ->
  In f (matches_of catalog name).
Proof.
  intros Hin Hname. unfold matches_of.
  assert (Hf : In f (List.filter
                       (fun g => String.eqb (lower (FileName g)) (lower name))
                       catalog)).
  { apply List.filter_In. split; [exact Hin|]. now apply String.eqb_eq. }
  destruct (List.filter _ catalog) as [|g exact]; [destruct Hf|exact Hf].
Qed.

(** What [missing_files] holds when the names come trimmed and not blank, as
    the form gives them: the requested names, lower case, that are the file
    name of no entry of the catalog. *)
Lemma missing_files_exact_only (catalog : list file_info)
    (target_files : list string) (n : string) :
  requested_names target_files = target_files ->
  n ∈ missing_files (match_targets target_files catalog []) target_files <->
  In n (map lower target_files) /\
  ~ exists f, In f catalog /\ lower (FileName f) = n.
Proof.
  intros Hreq. unfold missing_files.
  rewrite elem_of_difference, !elem_of_list_to_set, !list_elem_of_In.
  rewrite match_targets_spec, Hreq. cbn [app].
  split; intros [Hn Hnot]; (split; [exact Hn|]); intros H; apply Hnot.
  - destruct H as (f & Hf & Hname).
    apply in_map_iff in Hn as (t & Ht & Hin).
    apply in_map_iff. exists f. split; [exact Hname|].
    apply in_concat. exists (matches_of catalog t). split.
    + apply in_map_iff. eauto.
    + apply matches_of_exact; [exact Hf|congruence].
  - apply in_map_iff in H as (f & Hname & Hf).
    apply in_concat in Hf as (l & Hl & Hf).
    apply in_map_iff in Hl as (t & <- & Ht).
    exists f. split; [|exact Hname]. eapply matches_of_incl, Hf.
Qed.

(** C2, on the code as it is.  Requested ["report"], the bucket of
    [report_listing] gives three files, all by substring; no requested name
    is without a match, yet [missing_files] holds ["report"], and the branch
    tells both of three files found and of one not found. *)
Theorem missing_files_after_substring_match :
  let target_files := ["report"] in
  let found_files :=
    fst (fst (find_specific_pdfs report_listing target_files)) in
  let catalog := snd (fst (find_specific_pdfs report_listing target_files)) in
  map FileName found_files
    = ["Report.PDF"; "Report_v2.pdf"; "annual_report_2024.pdf"] /\
  unmatched_requested catalog target_files = ∅ /\
  missing_files found_files target_files = {["report"]} /\
  fst (specific_filenames_search report_listing target_files)
    = [st_success "Found 3 matching PDFs out of 1 requested";
       st_warning "Could not find 1 files:";
       st_write_missing "report"].
Proof. cbn zeta. repeat split; vm_compute; reflexivity. Qed.

Example missing_files_a_b :
  missing_files (fst (fst (find_specific_pdfs a_listing ["a.pdf"; "b.pdf"])))
    ["a.pdf"; "b.pdf"] = {["b.pdf"]}
  /\ unmatched_requested
       (snd (fst (find_specific_pdfs a_listing ["a.pdf"; "b.pdf"])))
       ["a.pdf"; "b.pdf"] = {["b.pdf"]}.
Proof. split; vm_compute; reflexivity. Qed.

(** ** Listing failures *)

(** C5, counterexample.  A listing that fails and a bucket without PDF give
    the caller the same value, and the branch goes on the same way after
    both: the error told by [find_specific_pdfs] is the only difference. *)
Lemma listing_failure_same_value :
  listing_outcome denied_listing = Some (ClientError "AccessDenied") /\
  listing_outcome NoMorePages = None /\
  fst (find_specific_pdfs denied_listing ["a.pdf"])
  = fst (find_specific_pdfs NoMorePages ["a.pdf"]) /\
  snd (specific_filenames_search denied_listing ["a.pdf"])
  = snd (specific_filenames_search NoMorePages ["a.pdf"]) /\
  fst (specific_filenames_search denied_listing ["a.pdf"])
  = st_error "Error accessing S3 bucket: AccessDenied"
    :: fst (specific_filenames_search NoMorePages ["a.pdf"]).
Proof. repeat split. Qed.

(** C5, amended.  When the listing fails, [find_specific_pdfs] catches the
    failure, tells it with one [st.error] and returns the two empty lists,
    whatever was listed before: the value that a bucket without PDF gives.
    When the listing does not fail, no error is told. *)
Theorem listing_failure_reported (listing : pages)
    (target_files : list string) :
  match listing_outcome listing with
  | Some e =>
      find_specific_pdfs listing target_files
      = (([], []), [st_error (listing_error_text e)]) /\
      fst (find_specific_pdfs listing target_files)
      = fst (find_specific_pdfs NoMorePages target_files)
  | None =>
      snd (find_specific_pdfs listing target_files) = []
  end.
Proof.
  unfold find_specific_pdfs. rewrite collect_pages_spec.
  destruct (listing_outcome listing) as [[msg|msg]|]; cbn [fst snd]; auto.
  - split; [reflexivity|]. cbn [collect_pages fst].
    induction target_files as [|t rest IH]; [reflexivity|].
    rewrite match_targets_cons. destruct (String.eqb (strip t) ""); auto.
  - split; [reflexivity|]. cbn [collect_pages fst].
    induction target_files as [|t rest IH]; [reflexivity|].
    rewrite match_targets_cons. destruct (String.eqb (strip t) ""); auto.
Qed.

(** ** The small pattern engine *)

Lemma MiniRe_starts_snoc (pre : string) (c : ascii) :
  MiniRe.starts (pre ++ String c "") = false.
Proof. destruct pre; reflexivity. Qed.

Lemma MiniRe_starts_true (pre : string) :
  MiniRe.starts pre = true <-> pre = "".
Proof. destruct pre; cbn; split; congruence. Qed.

Lemma MiniRe_match_star_spec (a : MiniRe.atom) (r : list MiniRe.item) :
  (forall pre s,
     MiniRe.match_here r (MiniRe.starts pre) s = true <->
     exists m post, s = m ++ post /\ MiniRe.matches r pre m post) ->
  forall s pre,
    MiniRe.match_star a (MiniRe.match_here r) (MiniRe.starts pre) s = true <->
    exists m post,
      s = m ++ post /\ MiniRe.matches (MiniRe.Star a :: r) pre m post.
Proof.
  intros IHr. induction s as [|c s IHs]; intros pre; cbn [MiniRe.match_star].
  - rewrite orb_false_r, IHr. split.
    + intros (m & post & Hs & Hm). exists m, post. split; [exact Hs|].
      now apply MiniRe.m_star_skip.
    + intros (m & post & Hs & Hm). inversion Hm; subst.
      * repeat esplit; eassumption.
      * discriminate Hs.
  - rewrite orb_true_iff, andb_true_iff, IHr.
    rewrite <- (MiniRe_starts_snoc pre c), IHs. split.
    + intros [(m & post & Hs & Hm)|[Hc (m & post & -> & Hm)]].
      * exists m, post. split; [exact Hs|]. now apply MiniRe.m_star_skip.
      * exists (String c m), post. split; [reflexivity|].
        now apply MiniRe.m_star_step.
    + intros (m & post & Hs & Hm). inversion Hm; subst.
      * left. repeat esplit; eassumption.
      * right. rewrite append_cons in Hs. injection Hs as -> ->.
        repeat esplit; eassumption.
Qed.

Lemma MiniRe_match_here_spec (r : list MiniRe.item) (pre s : string) :
  MiniRe.match_here r (MiniRe.starts pre) s = true <->
  exists m post, s = m ++ post /\ MiniRe.matches r pre m post.
Proof.
  revert pre s. induction r as [|[a|a| |] r IH]; intros pre s;
    cbn [MiniRe.match_here].
  - split; [|reflexivity]. intros _. exists "", s. split; [reflexivity|].
    constructor.
  - destruct s as [|c s].
    + split; [discriminate|]. intros (m & post & Hs & Hm).
      inversion Hm; subst. discriminate Hs.
    + rewrite andb_true_iff, <- (MiniRe_starts_snoc pre c), IH. split.
      * intros [Hc (m & post & -> & Hm)]. exists (String c m), post.
        split; [reflexivity|]. now apply MiniRe.m_one.
      * intros (m & post & Hs & Hm). inversion Hm; subst.
        rewrite append_cons in Hs. injection Hs as -> ->.
        split; [assumption|]. exists m0, post. split; [reflexivity|assumption].
  - now apply MiniRe_match_star_spec.
  - rewrite andb_true_iff, MiniRe_starts_true, IH. split.
    + intros [-> (m & post & Hs & Hm)]. exists m, post.
      split; [exact Hs|]. now apply MiniRe.m_bol.
    + intros (m & post & Hs & Hm). inversion Hm; subst.
      repeat esplit; eassumption.
  - rewrite andb_true_iff, IH. split.
    + intros [He (m & post & -> & Hm)]. exists m, post.
      split; [reflexivity|]. now apply MiniRe.m_eol.
    + intros (m & post & -> & Hm). inversion Hm; subst.
      repeat esplit; eassumption.
Qed.

Lemma MiniRe_search_from_spec (r : list MiniRe.item) (s pre : string) :
  MiniRe.search_from r (MiniRe.starts pre) s = true <->
  exists skipped m post,
    s = skipped ++ m ++ post /\ MiniRe.matches r (pre ++ skipped) m post.
Proof.
  revert pre. induction s as [|c s IH]; intros pre; cbn [MiniRe.search_from].
  - rewrite orb_false_r, MiniRe_match_here_spec. split.
    + intros (m & post & Hs & Hm). exists "", m, post.
      rewrite append_nil_r. repeat esplit; eassumption.
    + intros ([|x skipped] & m & post & Hs & Hm); [|discriminate Hs].
      rewrite append_nil_r in Hm. exists m, post. split; [exact Hs|exact Hm].
  - rewrite orb_true_iff, MiniRe_match_here_spec.
    rewrite <- (MiniRe_starts_snoc pre c), IH. split.
    + intros [(m & post & Hs & Hm)|(skipped & m & post & -> & Hm)].
      * exists "", m, post. rewrite append_nil_r. repeat esplit; eassumption.
      * exists (String c skipped), m, post. split; [reflexivity|].
        rewrite append_assoc in Hm. exact Hm.
    + intros ([|x skipped] & m & post & Hs & Hm).
      * left. rewrite append_nil_r in Hm. exists m, post.
        split; [exact Hs|exact Hm].
      * right. rewrite append_cons in Hs. injection Hs as -> ->.
        exists skipped, m, post. split; [reflexivity|].
        rewrite append_assoc. exact Hm.
Qed.

Lemma MiniRe_search_spec (r : list MiniRe.item) (s : string) :
  MiniRe.search r s = true <->
  exists pre m post, s = pre ++ m ++ post /\ MiniRe.matches r pre m post.
Proof. apply (MiniRe_search_from_spec r s ""). Qed.

Lemma not_special (c : ascii) :
  char_in c special_chars = false ->
  Ascii.eqb c "\" = false /\ Ascii.eqb c "." = false /\
  Ascii.eqb c "*" = false /\ Ascii.eqb c "^" = false /\
  Ascii.eqb c "$" = false.
Proof.
  unfold special_chars. cbn [char_in]. intros H.
  repeat (apply orb_false_elim in H as [? H]). auto.
Qed.

Lemma MiniRe_tokenize_plain (p : string) :
  plain p = true ->
  MiniRe.tokenize p
  = map (fun i => match i with
                  | MiniRe.One a => MiniRe.TAtom a
                  | _ => MiniRe.TStar
                  end) (MiniRe.literal p).
Proof.
  induction p as [|c p IH]; [reflexivity|]. cbn [plain].
  intros [Hc Hp]%andb_true_iff. apply negb_true_iff in Hc.
  destruct (not_special c Hc) as (H1 & H2 & H3 & H4 & H5).
  cbn [MiniRe.tokenize MiniRe.literal map].
  rewrite H1, H2, H3, H4, H5, Hc, (IH Hp). reflexivity.
Qed.

Lemma MiniRe_compile_plain (p : string) :
  plain p = true -> MiniRe.compile p = inr (MiniRe.literal p).
Proof.
  intros Hp. unfold MiniRe.compile. rewrite (MiniRe_tokenize_plain p Hp).
  clear Hp. induction p as [|c p IH]; [reflexivity|].
  cbn [MiniRe.literal map MiniRe.items_of] in *.
  destruct p as [|d p]; [reflexivity|].
  cbn [MiniRe.literal map] in *. rewrite IH. reflexivity.
Qed.

Lemma MiniRe_literal_spec (p pre m post : string) :
  MiniRe.matches (MiniRe.literal p) pre m post <-> lower m = lower p.
Proof.
  revert pre m. induction p as [|c p IH]; intros pre m;
    cbn [MiniRe.literal lower].
  - split.
    + intros H. inversion H; subst. reflexivity.
    + destruct m; [|discriminate]. intros _. constructor.
  - split.
    + intros H. inversion H as [| | |a x r' pre' m' post' Hok Hm| |]; subst.
      cbn [lower]. cbn [MiniRe.atom_ok] in Hok. apply Ascii.eqb_eq in Hok.
      rewrite <- Hok. f_equal. now apply IH in Hm.
    + destruct m as [|x m]; [discriminate|]. cbn [lower].
      intros H. injection H as Hx Hm. apply MiniRe.m_one.
      * cbn [MiniRe.atom_ok]. apply Ascii.eqb_eq. now symmetry.
      * now apply IH.
Qed.

Lemma MiniRe_dot_star :
  MiniRe.compile ".*" = inr [MiniRe.Star MiniRe.Dot] /\
  forall s, MiniRe.search [MiniRe.Star MiniRe.Dot] s = true.
Proof. split; [reflexivity|]. intros s. destruct s; reflexivity. Qed.

(** The small engine meets what is asked of a pattern engine. *)
Definition MiniRe_laws : PatternEngineLaws MiniRe.engine.
Proof.
  refine {| re_matches := MiniRe.matches : @regex MiniRe.engine -> _ |}.
  - exact MiniRe_search_spec.
  - intros p Hp. exists (MiniRe.literal p). split.
    + exact (MiniRe_compile_plain p Hp).
    + intros pre m post. apply MiniRe_literal_spec.
  - exists [MiniRe.Star MiniRe.Dot]. exact MiniRe_dot_star.
Defined.

(** ** Pattern search *)

Lemma select_In {A : Type} (P : A -> Prop) (l m : list A) (x : A) :
  select P l m -> In x l -> P x -> In x m.
Proof.
  induction 1 as [|y l m Hy Hs IH|y l m Hy Hs IH]; cbn; intros Hin HP.
  - exact Hin.
  - destruct Hin as [->|Hin]; [now left|right; now apply IH].
  - destruct Hin as [->|Hin]; [contradiction|now apply IH].
Qed.

Lemma select_all {A : Type} (P : A -> Prop) (l m : list A) :
  select P l m -> Forall P l -> m = l.
Proof.
  induction 1 as [|y l m Hy Hs IH|y l m Hy Hs IH]; intros Hall;
    inversion Hall; subst; [reflexivity|f_equal; auto|contradiction].
Qed.

Lemma filter_all {A : Type} (p : A -> bool) (l : list A) :
  (forall x, p x = true) -> List.filter p l = l.
Proof.
  intros Hp. induction l as [|x l IH]; cbn; [reflexivity|].
  now rewrite Hp, IH.
Qed.

Section PatternProperties.
Context {E : PatternEngine} (L : PatternEngineLaws E).

Lemma pattern_hit_occurs (r : regex) (obj : s3_object) :
  pattern_hit r obj = true <->
  occurs r (Key (make_file_info obj))
  \/ occurs r (FileName (make_file_info obj)).
Proof.
  unfold pattern_hit, occurs. cbn [Key FileName make_file_info].
  now rewrite orb_true_iff, !re_search_spec.
Qed.

Lemma select_pattern_hit (r : regex) (objects : list s3_object) :
  select (fun f => occurs r (Key f) \/ occurs r (FileName f))
    (catalog_of objects)
    (catalog_of (List.filter (pattern_hit r) objects)).
Proof.
  unfold catalog_of. induction objects as [|obj objects IH];
    cbn [List.filter map]; [constructor|].
  destruct (is_pdf_key (obj_Key obj)) eqn:Hpdf;
    destruct (pattern_hit r obj) eqn:Hhit;
    cbn [List.filter map]; rewrite ?Hpdf; cbn [map]; try exact IH.
  - apply select_keep; [now apply pattern_hit_occurs|exact IH].
  - apply select_skip; [|exact IH].
    intros H. apply pattern_hit_occurs in H. congruence.
Qed.

Lemma search_by_pattern_select (listing : pages) (target_files : list string)
    (pattern : string) (r : regex) :
  re_compile pattern = inr r ->
  select (fun f => occurs r (Key f) \/ occurs r (FileName f))
    (snd (fst (find_specific_pdfs listing target_files)))
    (fst (search_by_pattern listing pattern)).
Proof.
  intros Hr. rewrite find_specific_pdfs_catalog, search_by_pattern_spec, Hr.
  destruct (listing_outcome listing); [constructor|apply select_pattern_hit].
Qed.

Lemma search_by_pattern_dot_star (listing : pages)
    (target_files : list string) :
  fst (search_by_pattern listing ".*")
  = snd (fst (find_specific_pdfs listing target_files)).
Proof.
  rewrite find_specific_pdfs_catalog, search_by_pattern_spec.
  destruct re_compile_dot_star as (r & -> & Hall).
  destruct (listing_outcome listing); [reflexivity|].
  rewrite filter_all; [reflexivity|].
  intros obj. unfold pattern_hit. now rewrite Hall.
Qed.

End PatternProperties.

(** C3.  For a pattern engine in which [".*"] finds a match in every string,
    the "Browse All PDFs" branch computes the list that the "Pattern Search"
    branch computes for [".*"], which is what [search_by_pattern] returns for
    [".*"]; and that list is the catalog that [find_specific_pdfs] builds
    from the same listing: the same records, so the same keys, in the same
    order. *)
Theorem browse_all_is_pattern_dot_star {E : PatternEngine}
    (L : PatternEngineLaws E) (listing : pages) (target_files : list string) :
  found (browse_all_pdfs listing) = found (pattern_search listing ".*") /\
  found (browse_all_pdfs listing) = fst (search_by_pattern listing ".*") /\
  fst (search_by_pattern listing ".*")
  = snd (fst (find_specific_pdfs listing target_files)) /\
  map Key (fst (search_by_pattern listing ".*"))
  = map Key (snd (fst (find_specific_pdfs listing target_files))).
Proof.
  pose proof (search_by_pattern_dot_star L listing target_files) as Hcat.
  unfold browse_all_pdfs, pattern_search.
  destruct (search_by_pattern listing ".*") as [[|f found_files] log];
    cbn [found fst] in *; rewrite <- Hcat; repeat split.
Qed.

Lemma browse_all_is_pattern_dot_star_witness :
  found (browse_all_pdfs (E := MiniRe.engine) report_listing)
  = found (pattern_search (E := MiniRe.engine) report_listing ".*") /\
  found (browse_all_pdfs (E := MiniRe.engine) report_listing)
  = fst (search_by_pattern (E := MiniRe.engine) report_listing ".*") /\
  fst (search_by_pattern (E := MiniRe.engine) report_listing ".*")
  = snd (fst (find_specific_pdfs report_listing ["report.pdf"])) /\
  map Key (fst (search_by_pattern (E := MiniRe.engine) report_listing ".*"))
  = map Key (snd (fst (find_specific_pdfs report_listing ["report.pdf"]))).
Proof.
  exact (browse_all_is_pattern_dot_star MiniRe_laws report_listing
           ["report.pdf"]).
Defined.

(** C6, counterexample.  In the small engine, as in [re], the pattern
    [a{4294967295}] does not compile: the repetition count is too large.
    No invalid pattern is reported for it; the search fails with "Error
    searching files". *)
Lemma overflowing_pattern_not_reported_invalid :
  re_compile (PatternEngine := MiniRe.engine) "a{4294967295}"
  = inl (compile_raises "the repetition number is too large") /\
  search_by_pattern (E := MiniRe.engine) denied_listing "a{4294967295}"
  = ([], [st_error
            "Error searching files: the repetition number is too large"]) /\
  ~ invalid_pattern_reported
      (snd (search_by_pattern (E := MiniRe.engine) denied_listing
              "a{4294967295}")).
Proof.
  split; [reflexivity|]. split; [reflexivity|].
  intros [msg [H|[]]]. discriminate H.
Qed.

(** C6, amended.  [search_by_pattern] reports an invalid pattern when, and
    only when, compiling the pattern raises [re.error]; it then returns no
    entry and the report alone, whatever the listing holds: the listing is
    not read.  When compiling raises another exception, it returns no entry
    either and the listing is not read, but what it reports is "Error
    searching files". *)
Theorem invalid_pattern_iff {E : PatternEngine} (listing : pages)
    (pattern : string) :
  (invalid_pattern_reported (snd (search_by_pattern listing pattern)) <->
   exists msg, re_compile pattern = inl (re_error msg)) /\
  (forall msg, re_compile pattern = inl (re_error msg) ->
     forall other : pages,
       search_by_pattern other pattern
       = ([], [st_error ("Invalid regex pattern: " ++ msg)])) /\
  (forall msg, re_compile pattern = inl (compile_raises msg) ->
     forall other : pages,
       search_by_pattern other pattern
       = ([], [st_error ("Error searching files: " ++ msg)])).
Proof.
  unfold invalid_pattern_reported, search_by_pattern. split; [|split].
  - destruct (re_compile pattern) as [[msg|msg]|r]; cbn [snd].
    + split; [eauto|]. intros _. exists msg. now left.
    + split; [|intros [m H]; discriminate H].
      intros [m [H|[]]]. discriminate H.
    + split; [|intros [msg H]; discriminate H].
      intros [msg H]. exfalso.
      destruct (search_pages r listing []); cbn in H; [exact H|].
      destruct H as [H|[]]. discriminate H.
  - intros msg Hmsg other. now rewrite Hmsg.
  - intros msg Hmsg other. now rewrite Hmsg.
Qed.

Lemma invalid_pattern_iff_witness :
  search_by_pattern (E := MiniRe.engine) denied_listing "*.pdf"
  = ([], [st_error ("Invalid regex pattern: " ++ "nothing to repeat")]) /\
  search_by_pattern (E := MiniRe.engine) denied_listing "a{2,4294967295}"
  = ([], [st_error ("Error searching files: "
                    ++ "the repetition number is too large")]).
Proof.
  split.
  - apply (proj1 (proj2 (invalid_pattern_iff (E := MiniRe.engine)
                           report_listing "*.pdf")) "nothing to repeat").
    reflexivity.
  - apply (proj2 (proj2 (invalid_pattern_iff (E := MiniRe.engine)
                           report_listing "a{2,4294967295}"))
             "the repetition number is too large").
    reflexivity.
Defined.

(** C10.  For a pattern that compiles, [search_by_pattern] returns the
    entries of the catalog, in order, for which the pattern matches
    somewhere in the key or somewhere in the file name, and no other.  So
    ["report"] keeps every entry named [annual_report_2024.pdf], and the
    empty pattern keeps the whole catalog. *)
Theorem pattern_search_unanchored {E : PatternEngine}
    (L : PatternEngineLaws E) (listing : pages) (target_files : list string) :
  let catalog := snd (fst (find_specific_pdfs listing target_files)) in
  (forall pattern r, re_compile pattern = inr r ->
     select (fun f => occurs r (Key f) \/ occurs r (FileName f))
       catalog (fst (search_by_pattern listing pattern))) /\
  (forall f, In f catalog -> FileName f = "annual_report_2024.pdf" ->
     In f (fst (search_by_pattern listing "report"))) /\
  fst (search_by_pattern listing "") = catalog.
Proof.
  cbn zeta. split; [|split].
  - intros pattern r Hr. now apply search_by_pattern_select.
  - intros f Hin Hname.
    destruct (re_compile_plain "report" eq_refl) as (r & Hr & Hm).
    apply (select_In _ _ _ f
             (search_by_pattern_select L listing target_files _ r Hr) Hin).
    right. exists "annual_", "report", "_2024.pdf". rewrite Hname.
    split; [reflexivity|]. now apply Hm.
  - destruct (re_compile_plain "" eq_refl) as (r & Hr & Hm).
    apply (select_all _ _ _
             (search_by_pattern_select L listing target_files _ r Hr)).
    apply List.Forall_forall. intros f _. left.
    exists "", "", (Key f). split; [reflexivity|]. now apply Hm.
Qed.

Lemma pattern_search_unanchored_witness :
  select
    (fun f =>
       occurs (L := MiniRe_laws) [MiniRe.Bol; MiniRe.One (MiniRe.Chr "r")]
         (Key f)
       \/ occurs (L := MiniRe_laws) [MiniRe.Bol; MiniRe.One (MiniRe.Chr "r")]
            (FileName f))
    (snd (fst (find_specific_pdfs report_listing ["a.pdf"])))
    (fst (search_by_pattern (E := MiniRe.engine) report_listing "^r"))
  /\
  In (make_file_info (sample_object "annual_report_2024.pdf" 1073741824))
    (fst (search_by_pattern (E := MiniRe.engine) report_listing "report")).
Proof.
  pose proof (pattern_search_unanchored MiniRe_laws report_listing ["a.pdf"])
    as (Hsel & Hex & _).
  split.
  - apply (Hsel "^r"). reflexivity.
  - apply Hex; [|reflexivity]. vm_compute. tauto.
Defined.

(** ** Archive *)

Lemma ZipInfo_filename_without_nul (name : string) :
  char_in "000" name = false -> ZipInfo_filename name = name.
Proof.
  induction name as [|c name IH]; [reflexivity|].
  cbn [char_in ZipInfo_filename]. intros [Hc Hn]%orb_false_elim.
  rewrite Ascii.eqb_sym, Hc, (IH Hn). reflexivity.
Qed.

Lemma storable_no_fault (name : string) :
  storable name -> ZipInfo_filename name = name /\ name_fault name = None.
Proof.
  intros (Hne & Hnul & Hlen). split.
  - now apply ZipInfo_filename_without_nul.
  - unfold name_fault. destruct (String.eqb_spec name ""); [contradiction|].
    destruct (N.ltb_spec 65535 (encoded_length name)); [lia|reflexivity].
Qed.

Lemma archive_name_storable (file_name : string) :
  storable (last_item (split "/" file_name)) ->
  archive_name file_name = last_item (split "/" file_name) /\
  name_fault (archive_name file_name) = None.
Proof.
  intros H. unfold archive_name.
  destruct (storable_no_fault _ H) as [-> Hf]. split; [reflexivity|exact Hf].
Qed.

Lemma writestr_cases (z : zip_file) (name : string) (data : bytes) :
  let filename := ZipInfo_filename name in
  let w := if existsb (fun m => String.eqb (member_name m) filename)
                (zip_members z)
           then [warn_duplicate_name filename]
           else [] in
  match name_fault filename with
  | Some e =>
      fst (writestr z name data) = inl e /\
      Forall (fun ev => exists n, ev = warn_duplicate_name n)
        (snd (writestr z name data))
  | None =>
      writestr z name data
      = (inr {| zip_compression := zip_compression z;
                zip_members :=
                  zip_members z
                  ++ [{| member_name := filename;
                         member_compression := zip_compression z;
                         member_data := data |}] |},
         w)
  end.
Proof.
  cbn zeta. unfold writestr, name_fault.
  destruct (ZipInfo_filename name) as [|c filename]; cbn [String.eqb].
  - split; [reflexivity|constructor].
  - destruct (65535 <? encoded_length (String c filename))%N;
      [|reflexivity].
    cbn [fst snd]. split; [reflexivity|].
    destruct (existsb _ _); repeat constructor. eauto.
Qed.

Lemma write_items_spec (items : dict) (z : zip_file) :
  zip_compression z = ZIP_DEFLATED ->
  Forall (fun e => exists name, e = warn_duplicate_name name)
    (snd (write_items items z)) /\
  match fst (write_items items z) with
  | inr z' =>
      Forall (fun item => name_fault (archive_name (fst item)) = None)
        items /\
      zip_compression z' = ZIP_DEFLATED /\
      zip_members z' = (zip_members z ++ map member_of items)%list
  | inl e =>
      Exists (fun item => name_fault (archive_name (fst item)) = Some e)
        items
  end.
Proof.
  revert z. induction items as [|[file_name file_data] items IH]; intros z Hz.
  - cbn. rewrite app_nil_r. auto.
  - cbn [write_items].
    pose proof (writestr_cases z (last_item (split "/" file_name)) file_data)
      as Hcase. cbn zeta in Hcase.
    fold (archive_name file_name) in Hcase.
    destruct (name_fault (archive_name file_name)) as [e|] eqn:Hfault.
    + destruct (writestr z _ file_data) as [r w]. cbn [fst snd] in Hcase.
      destruct Hcase as [-> Hw]. cbn [fst snd]. split; [exact Hw|].
      now apply Exists_cons_hd.
    + rewrite Hcase.
      set (z' := {| zip_compression := zip_compression z;
                    zip_members := _ |}).
      destruct (IH z' Hz) as (Hw & Hr).
      destruct (write_items items z') as [r w'] eqn:Hrec.
      cbn [fst snd] in *. split.
      * apply Forall_app. split; [|exact Hw].
        destruct (existsb _ _); repeat constructor. eauto.
      * destruct r as [e|z''].
        -- now apply Exists_cons_tl.
        -- destruct Hr as (Hall & Hc & Hm). split; [|split; [exact Hc|]].
           ++ constructor; [exact Hfault|exact Hall].
           ++ rewrite Hm. subst z'. cbn [zip_members map].
              rewrite <- app_assoc. unfold member_of at 2.
              cbn [fst snd app]. now rewrite Hz.
Qed.

Lemma create_zip_file_completes (files_data : dict) :
  Forall (fun item => name_fault (archive_name (fst item)) = None)
    files_data ->
  exists w,
    create_zip_file files_data
    = (inr {| zip_compression := ZIP_DEFLATED;
              zip_members := map member_of files_data |}, w) /\
    Forall (fun e => exists name, e = warn_duplicate_name name) w.
Proof.
  intros Hall. unfold create_zip_file.
  destruct (write_items_spec files_data
              {| zip_compression := ZIP_DEFLATED; zip_members := [] |}
              eq_refl) as (Hw & Hr).
  destruct (write_items files_data _) as [[e|z] w]; cbn [fst snd] in *.
  - exfalso. apply List.Exists_exists in Hr as (item & Hin & Hitem).
    rewrite List.Forall_forall in Hall. rewrite (Hall item Hin) in Hitem.
    discriminate Hitem.
  - destruct Hr as (_ & Hc & Hm). exists w. split; [|exact Hw].
    destruct z as [c members]. cbn in Hc, Hm. now subst.
Qed.

(** C7, counterexample.  Two names that both end in [/] collapse to the
    same base name, the empty one; [create_zip_file] raises [IndexError]
    for them and gives no archive. *)
Lemma create_zip_file_raises_on_folder_names :
  map (fun item => last_item (split "/" (fst item))) folder_names
  = [""; ""] /\
  create_zip_file folder_names
  = (inl (IndexError "string index out of range"), []).
Proof. split; reflexivity. Qed.

(** C7, amended.  For every mapping (a non-empty one in particular) whose
    names have a base name that is not empty, holds no NUL character and is
    written in 65535 bytes at most, [create_zip_file] raises nothing and
    writes one member for each item, in order; the names and contents read
    back are the base names and the contents given; each member is named by
    what follows the last [/] of the name given, is deflated, and holds the
    bytes given.  The only calls made are warnings, as for the two names
    that both end in [report.pdf], which give two members of that name and
    one warning. *)
Theorem create_zip_file_round_trip (files_data : dict) :
  Forall (fun item => storable (last_item (split "/" (fst item))))
    files_data ->
  (exists archive,
     fst (create_zip_file files_data) = inr archive /\
     extract archive
     = map (fun item => (last_item (split "/" (fst item)), snd item))
         files_data /\
     Forall2
       (fun item m =>
          is_basename_of (member_name m) (fst item) /\
          member_compression m = ZIP_DEFLATED /\
          member_data m = snd item)
       files_data (zip_members archive)) /\
  Forall (fun e => exists name, e = warn_duplicate_name name)
    (snd (create_zip_file files_data)) /\
  create_zip_file colliding_files
  = (inr {| zip_compression := ZIP_DEFLATED;
            zip_members :=
              [{| member_name := "report.pdf";
                  member_compression := ZIP_DEFLATED;
                  member_data := [Byte.x01; Byte.x02] |};
               {| member_name := "report.pdf";
                  member_compression := ZIP_DEFLATED;
                  member_data := [Byte.x03] |}] |},
     [warn_duplicate_name "report.pdf"]).
Proof.
  intros Hnames.
  assert (Hall : Forall
                   (fun item => name_fault (archive_name (fst item)) = None)
                   files_data).
  { eapply List.Forall_impl; [|exact Hnames].
    intros item H. now apply archive_name_storable. }
  destruct (create_zip_file_completes files_data Hall) as (w & -> & Hw).
  cbn [fst snd]. split; [|split; [exact Hw|reflexivity]].
  eexists. split; [reflexivity|]. unfold extract. cbn [zip_members].
  clear Hall Hw. split.
  - induction Hnames as [|item items Hitem _ IH]; [reflexivity|].
    cbn [map]. rewrite IH. f_equal.
    cbn [member_of member_name member_data].
    now rewrite (proj1 (archive_name_storable _ Hitem)).
  - induction Hnames as [|item items Hitem _ IH]; cbn [map];
      constructor; [|exact IH].
    cbn [member_of member_name member_compression member_data].
    rewrite (proj1 (archive_name_storable _ Hitem)).
    split; [apply basename_spec|]. split; reflexivity.
Qed.

Lemma create_zip_file_round_trip_witness :
  (exists archive,
     fst (create_zip_file colliding_files) = inr archive /\
     extract archive
     = map (fun item => (last_item (split "/" (fst item)), snd item))
         colliding_files /\
     Forall2
       (fun item m =>
          is_basename_of (member_name m) (fst item) /\
          member_compression m = ZIP_DEFLATED /\
          member_data m = snd item)
       colliding_files (zip_members archive)) /\
  Forall (fun e => exists name, e = warn_duplicate_name name)
    (snd (create_zip_file colliding_files)).
Proof.
  refine (let H := create_zip_file_round_trip colliding_files _ in
          conj (proj1 H) (proj1 (proj2 H))).
  repeat (constructor;
          [split; [discriminate|split; [reflexivity|vm_compute; discriminate]]
          |]).
  constructor.
Defined.

(** ** Bulk download *)

Lemma fetched_app (l1 l2 : list event) :
  fetched (l1 ++ l2) = (fetched l1 ++ fetched l2)%list.
Proof. apply flat_map_app. Qed.

Lemma errors_app (l1 l2 : list event) :
  errors (l1 ++ l2) = (errors l1 ++ errors l2)%list.
Proof. apply List.filter_app. Qed.

Lemma fetched_get (key : string) (log : list event) :
  fetched (ev_get_object key :: log) = key :: fetched log.
Proof. reflexivity. Qed.

Lemma fetched_error (msg : string) (log : list event) :
  fetched (st_error msg :: log) = fetched log.
Proof. reflexivity. Qed.

Lemma fetched_progress (i total : nat) (log : list event) :
  fetched (st_progress i total :: log) = fetched log.
Proof. reflexivity. Qed.

Lemma errors_get (key : string) (log : list event) :
  errors (ev_get_object key :: log) = errors log.
Proof. reflexivity. Qed.

Lemma errors_error (msg : string) (log : list event) :
  errors (st_error msg :: log) = st_error msg :: errors log.
Proof. reflexivity. Qed.

Lemma errors_progress (i total : nat) (log : list event) :
  errors (st_progress i total :: log) = errors log.
Proof. reflexivity. Qed.

Lemma download_selected_cons (get_object : string -> string + bytes)
    (f : file_info) (rest : list file_info) (i total : nat) (d : dict) :
  download_selected get_object (f :: rest) i total d
  = let d' := match get_object (Key f) with
              | inr (b :: data) => dict_set d (FileName f) (b :: data)
              | inr [] | inl _ => d
              end in
    let r := download_selected get_object rest (S i) total d' in
    (fst r,
     (ev_get_object (Key f) :: download_error get_object f
      ++ st_progress (S i) total :: snd r)%list).
Proof.
  cbn [download_selected]. unfold download_file, download_error.
  destruct (get_object (Key f)) as [msg|[|b data]]; cbn zeta.
  all: match goal with
       | |- context [download_selected ?g ?r ?j ?t ?x] =>
           destruct (download_selected g r j t x)
       end; reflexivity.
Qed.

Lemma download_selected_spec (get_object : string -> string + bytes)
    (selected_files : list file_info) (i total : nat) (files_data : dict) :
  fst (download_selected get_object selected_files i total files_data)
  = dict_from files_data (kept_downloads get_object selected_files) /\
  fetched (snd (download_selected get_object selected_files i total files_data))
  = map Key selected_files /\
  errors (snd (download_selected get_object selected_files i total files_data))
  = flat_map (download_error get_object) selected_files.
Proof.
  revert i files_data.
  induction selected_files as [|f rest IH]; intros i d; [now cbn|].
  rewrite download_selected_cons. cbn zeta. cbn [fst snd].
  match goal with
  | |- context [download_selected get_object rest (S i) total ?d'] =>
      destruct (IH (S i) d') as (Hd & Hf & He)
  end.
  unfold download_error at 1 2 3.
  cbn [kept_downloads flat_map map]. fold (kept_downloads get_object rest).
  destruct (get_object (Key f)) as [msg|[|b data]]; cbn [app];
    rewrite ?fetched_get, ?fetched_error, ?fetched_progress,
      ?errors_get, ?errors_error, ?errors_progress, Hd, Hf, He;
    repeat split.
Qed.

(** C8.  On the code as it is.  Two files are selected, of the same name in
    two folders: both downloads succeed and no error is told, yet the
    archive holds the second only, and one file is announced.  A file of no
    byte, selected alone: its download succeeds and no error is told, yet
    no archive is made. *)
Theorem bulk_archive_loses_a_file :
  succeeded_downloads sample_store same_name_selection
  = [("report.pdf", [Byte.x01; Byte.x02]); ("report.pdf", [Byte.x03])] /\
  download_selected_as_zip sample_store same_name_selection
  = (Some (inr (archive_of [("report.pdf", [Byte.x03])])),
     [ev_get_object "2023/report.pdf"; st_progress 1 2;
      ev_get_object "2024/report.pdf"; st_progress 2 2;
      st_success_zip_ready 1]) /\
  extract (archive_of [("report.pdf", [Byte.x03])])
  <> succeeded_downloads sample_store same_name_selection /\
  succeeded_downloads sample_store
    [make_file_info (sample_object "empty.pdf" 0)]
  = [("empty.pdf", [])] /\
  download_selected_as_zip sample_store
    [make_file_info (sample_object "empty.pdf" 0)]
  = (None, [ev_get_object "empty.pdf"; st_progress 1 1]).
Proof. repeat split. vm_compute. discriminate. Qed.

Example bulk_download_partial :
  download_selected_as_zip sample_store partial_selection
  = (Some (inr (archive_of [("report.pdf", [Byte.x01; Byte.x02]);
                            ("minutes.pdf", [Byte.x04])])),
     [ev_get_object "2023/report.pdf"; st_progress 1 3;
      ev_get_object "gone.pdf";
      st_error "Error downloading gone.pdf: NoSuchKey"; st_progress 2 3;
      ev_get_object "notes/minutes.pdf"; st_progress 3 3;
      st_success_zip_ready 2]).
Proof. vm_compute. reflexivity. Qed.

(** A file of no byte is downloaded without error and left out. *)
Example bulk_download_empty_file :
  download_selected_as_zip sample_store
    [make_file_info (sample_object "empty.pdf" 0);
     make_file_info (sample_object "2024/report.pdf" 1)]
  = (Some (inr (archive_of [("report.pdf", [Byte.x03])])),
     [ev_get_object "empty.pdf"; st_progress 1 2;
      ev_get_object "2024/report.pdf"; st_progress 2 2;
      st_success_zip_ready 1]).
Proof. vm_compute. reflexivity. Qed.

(** * Further properties of the code *)

(** ** More on strings *)

Lemma lower_append (a b : string) : lower (a ++ b) = lower a ++ lower b.
Proof.
  induction a as [|c a IH]; [reflexivity|].
  rewrite append_cons. cbn [lower]. rewrite append_cons. now rewrite IH.
Qed.

Lemma lower_empty (s : string) : lower s = "" <-> s = "".
Proof. destruct s; cbn; split; congruence. Qed.

Lemma lstrip_idem (s : string) : lstrip (lstrip s) = lstrip s.
Proof.
  induction s as [|c s IH]; [reflexivity|]. cbn [lstrip].
  destruct (isspace c) eqn:Hc; [exact IH|]. cbn [lstrip]. now rewrite Hc.
Qed.

Lemma rstrip_idem (s : string) : rstrip (rstrip s) = rstrip s.
Proof.
  induction s as [|c s IH]; [reflexivity|]. cbn [rstrip].
  destruct (rstrip s) as [|d r] eqn:Hr.
  - destruct (isspace c) eqn:Hc; [reflexivity|]. cbn [rstrip]. now rewrite Hc.
  - cbn [rstrip] in *. rewrite IH. reflexivity.
Qed.

Lemma lstrip_head (s : string) :
  match lstrip s with
  | EmptyString => True
  | String c _ => isspace c = false
  end.
Proof.
  induction s as [|c s IH]; [exact I|]. cbn [lstrip].
  destruct (isspace c) eqn:Hc; [exact IH|exact Hc].
Qed.

Lemma rstrip_head (c : ascii) (s : string) :
  isspace c = false -> exists r, rstrip (String c s) = String c r.
Proof.
  intros Hc. cbn [rstrip]. destruct (rstrip s) as [|d r]; rewrite ?Hc; eauto.
Qed.

Lemma strip_idem (s : string) : strip (strip s) = strip s.
Proof.
  unfold strip. pose proof (lstrip_head s) as Hh.
  destruct (lstrip s) as [|c t]; [reflexivity|].
  destruct (rstrip_head c t Hh) as [r Hr]. rewrite Hr.
  cbn [lstrip]. rewrite Hh, <- Hr. apply rstrip_idem.
Qed.

(** ** More on matching by names *)

Lemma match_targets_nil (target_files : list string) :
  match_targets target_files [] [] = [].
Proof.
  rewrite match_targets_spec. cbn [app].
  induction (requested_names target_files) as [|n l IH]; [reflexivity|exact IH].
Qed.

(** What [find_specific_pdfs] returns, in one equation. *)
Lemma find_specific_pdfs_found (listing : pages) (target_files : list string) :
  fst (fst (find_specific_pdfs listing target_files))
  = List.concat
      (map (matches_of (snd (fst (find_specific_pdfs listing target_files))))
         (requested_names target_files)).
Proof.
  unfold find_specific_pdfs.
  destruct (collect_pages listing []) as [all|[msg|msg]]; cbn [fst snd].
  - now rewrite match_targets_spec.
  - induction (requested_names target_files); [reflexivity|assumption].
  - induction (requested_names target_files); [reflexivity|assumption].
Qed.

Lemma find_specific_pdfs_log (listing : pages) (t1 t2 : list string) :
  snd (find_specific_pdfs listing t1) = snd (find_specific_pdfs listing t2)
  /\ snd (fst (find_specific_pdfs listing t1))
     = snd (fst (find_specific_pdfs listing t2)).
Proof.
  unfold find_specific_pdfs.
  destruct (collect_pages listing []) as [all|[msg|msg]]; split; reflexivity.
Qed.

Lemma requested_names_app (t1 t2 : list string) :
  requested_names (t1 ++ t2)
  = (requested_names t1 ++ requested_names t2)%list.
Proof. unfold requested_names. now rewrite map_app, List.filter_app. Qed.

(** X1.  The files found for two lists of names put end to end are the
    files found for the first followed by the files found for the second: a
    name asked twice gives its files twice. *)
Theorem found_of_concatenation (listing : pages) (t1 t2 : list string) :
  fst (fst (find_specific_pdfs listing (t1 ++ t2)))
  = (fst (fst (find_specific_pdfs listing t1))
     ++ fst (fst (find_specific_pdfs listing t2)))%list.
Proof.
  rewrite !find_specific_pdfs_found.
  rewrite (proj2 (find_specific_pdfs_log listing (t1 ++ t2) t1)).
  rewrite (proj2 (find_specific_pdfs_log listing t2 t1)).
  now rewrite requested_names_app, map_app, concat_app.
Qed.

Lemma filter_Permutation {A : Type} (p : A -> bool) (l1 l2 : list A) :
  Permutation l1 l2 -> Permutation (List.filter p l1) (List.filter p l2).
Proof.
  induction 1 as [|x l1 l2 H IH|x y l|l1 l2 l3 H12 IH12 H23 IH23]; cbn.
  - constructor.
  - destruct (p x); [now constructor|exact IH].
  - destruct (p x), (p y); try reflexivity. constructor.
  - now transitivity (List.filter p l2).
Qed.

Lemma concat_map_Permutation {A B : Type} (f : A -> list B) (l1 l2 : list A) :
  Permutation l1 l2 ->
  Permutation (List.concat (map f l1)) (List.concat (map f l2)).
Proof.
  induction 1 as [|x l1 l2 H IH|x y l|l1 l2 l3 H12 IH12 H23 IH23]; cbn.
  - constructor.
  - now apply Permutation_app_head.
  - rewrite !app_assoc. apply Permutation_app_tail, Permutation_app_comm.
  - now transitivity (List.concat (map f l2)).
Qed.

(** X2.  The order of the requested names changes the order of the files
    found and nothing else: the same files, as often. *)
Theorem found_of_permutation (listing : pages) (t1 t2 : list string) :
  Permutation t1 t2 ->
  Permutation (fst (fst (find_specific_pdfs listing t1)))
    (fst (fst (find_specific_pdfs listing t2))).
Proof.
  intros H. rewrite !find_specific_pdfs_found.
  rewrite (proj2 (find_specific_pdfs_log listing t2 t1)).
  apply concat_map_Permutation. unfold requested_names.
  now apply filter_Permutation, Permutation_map.
Qed.

Lemma found_of_permutation_witness :
  Permutation
    (fst (fst (find_specific_pdfs report_listing ["annual"; "report.pdf"])))
    (fst (fst (find_specific_pdfs report_listing ["report.pdf"; "annual"]))).
Proof.
  apply (found_of_permutation report_listing ["annual"; "report.pdf"]
           ["report.pdf"; "annual"]).
  apply perm_swap.
Defined.

Lemma matches_of_lower (catalog : list file_info) (a b : string) :
  lower a = lower b -> matches_of catalog a = matches_of catalog b.
Proof. intros H. unfold matches_of. now rewrite H. Qed.

(** X3.  [find_specific_pdfs] reads the requested names up to case, to the
    white space around them and to blank entries: two requests that are the
    same once trimmed, rid of blanks and lower-cased give the same result. *)
Theorem found_up_to_case_and_blanks (listing : pages) (t1 t2 : list string) :
  map lower (requested_names t1) = map lower (requested_names t2) ->
  find_specific_pdfs listing t1 = find_specific_pdfs listing t2.
Proof.
  intros H.
  destruct (find_specific_pdfs_log listing t1 t2) as [Hlog Hcat].
  pose proof (find_specific_pdfs_found listing t1) as H1.
  pose proof (find_specific_pdfs_found listing t2) as H2.
  rewrite Hcat in H1.
  assert (Hfound : fst (fst (find_specific_pdfs listing t1))
                   = fst (fst (find_specific_pdfs listing t2))).
  { rewrite H1, H2. f_equal.
    generalize (snd (fst (find_specific_pdfs listing t2))) as catalog.
    intros catalog. revert H.
    generalize (requested_names t1) as l1, (requested_names t2) as l2.
    induction l1 as [|a l1 IH]; intros [|b l2] H; try discriminate H;
      [reflexivity|].
    cbn in *. injection H as Hab Hl.
    now rewrite (matches_of_lower catalog a b Hab), (IH l2 Hl). }
  destruct (find_specific_pdfs listing t1) as [[f1 c1] g1].
  destruct (find_specific_pdfs listing t2) as [[f2 c2] g2].
  cbn [fst snd] in *. congruence.
Qed.

Lemma found_up_to_case_and_blanks_witness :
  find_specific_pdfs report_listing ["  REPORT.pdf "; ""; "Annual"]
  = find_specific_pdfs report_listing ["report.PDF"; "annual"; "   "].
Proof.
  apply (found_up_to_case_and_blanks report_listing
           ["  REPORT.pdf "; ""; "Annual"] ["report.PDF"; "annual"; "   "]).
  reflexivity.
Defined.

(** ** More on the catalog *)

Lemma char_in_append (c : ascii) (a b : string) :
  char_in c (a ++ b) = char_in c a || char_in c b.
Proof.
  induction a as [|x a IH]; [reflexivity|].
  rewrite append_cons. cbn [char_in]. now rewrite IH, orb_assoc.
Qed.

Lemma endswith_after_separator (sep : ascii) (dir name suf : string) :
  char_in sep suf = false ->
  endswith (dir ++ String sep name) suf = true ->
  endswith name suf = true.
Proof.
  intros Hsuf. induction dir as [|c dir IH].
  - cbn [append endswith]. intros [H|H]%orb_true_iff; [|exact H].
    apply String.eqb_eq in H. rewrite <- H in Hsuf. cbn in Hsuf.
    now rewrite Ascii.eqb_refl in Hsuf.
  - rewrite append_cons. cbn [endswith].
    intros [H|H]%orb_true_iff; [|now apply IH].
    apply String.eqb_eq in H. rewrite <- H in Hsuf.
    cbn [char_in] in Hsuf. rewrite char_in_append in Hsuf. cbn in Hsuf.
    rewrite Ascii.eqb_refl in Hsuf. cbn in Hsuf.
    now rewrite !orb_true_r in Hsuf.
Qed.

Lemma file_name_ends_with_pdf (f : file_info) :
  catalog_entry_ok f -> ends_with_pdf (FileName f).
Proof.
  intros [Hkey [_ [Heq|[dir Heq]]]].
  - now rewrite <- Heq.
  - unfold ends_with_pdf in *. apply endswith_spec.
    apply endswith_spec in Hkey. rewrite Heq, !lower_append in Hkey.
    apply (endswith_after_separator "/" (lower dir) (lower (FileName f))
             ".pdf" eq_refl).
    exact Hkey.
Qed.

Lemma matches_of_In (catalog : list file_info) (name : string)
    (f : file_info) :
  In f (matches_of catalog name) ->
  In f catalog /\ substring_match name f.
Proof.
  unfold matches_of.
  destruct (List.filter _ catalog) as [|g exact] eqn:He.
  - intros [Hin Hc]%List.filter_In. split; [exact Hin|].
    now apply contains_spec.
  - rewrite <- He. intros [Hin Hc]%List.filter_In. split; [exact Hin|].
    apply String.eqb_eq in Hc. exists "", "". rewrite Hc.
    now rewrite append_nil_r.
Qed.

(** X4.  Every file found is an entry of the catalog, its file name ends in
    [.pdf] whatever the case, and it holds one of the requested names,
    whatever the case. *)
Theorem found_files_are_catalog_pdfs (listing : pages)
    (target_files : list string) :
  let found_files := fst (fst (find_specific_pdfs listing target_files)) in
  let catalog := snd (fst (find_specific_pdfs listing target_files)) in
  Forall
    (fun f =>
       In f catalog /\ ends_with_pdf (FileName f) /\
       exists name, In name (requested_names target_files)
                    /\ substring_match name f)
    found_files.
Proof.
  cbn zeta. rewrite find_specific_pdfs_found.
  pose proof (catalog_of_ok (listing_objects listing)) as Hok.
  pose proof (find_specific_pdfs_catalog listing target_files) as Hcat.
  set (catalog := snd (fst (find_specific_pdfs listing target_files))) in *.
  assert (Hall : Forall catalog_entry_ok catalog).
  { rewrite Hcat. destruct (listing_outcome listing); [constructor|exact Hok]. }
  apply List.Forall_forall. intros f Hf.
  apply in_concat in Hf as (l & Hl & Hf).
  apply in_map_iff in Hl as (name & <- & Hname).
  apply matches_of_In in Hf as [Hin Hsub].
  split; [exact Hin|]. split.
  - apply file_name_ends_with_pdf.
    rewrite List.Forall_forall in Hall. now apply Hall.
  - now exists name.
Qed.

(** X5.  A requested name that does not end in [.pdf], whatever the case,
    is the file name of no entry of the catalog: it can only be matched as a
    substring. *)
Theorem exact_match_needs_pdf_name (listing : pages)
    (target_files : list string) (name : string) :
  ~ ends_with_pdf name ->
  Forall (fun f => ~ exact_match name f)
    (snd (fst (find_specific_pdfs listing target_files))).
Proof.
  intros Hname. rewrite find_specific_pdfs_catalog.
  destruct (listing_outcome listing); [constructor|].
  pose proof (catalog_of_ok (listing_objects listing)) as Hok.
  eapply List.Forall_impl; [|exact Hok].
  intros f Hf Hexact. apply Hname.
  destruct (file_name_ends_with_pdf f Hf) as [stem Hstem].
  exists stem. unfold exact_match in Hexact. congruence.
Qed.

Lemma exact_match_needs_pdf_name_witness :
  Forall (fun f => ~ exact_match "report" f)
    (snd (fst (find_specific_pdfs report_listing ["report"]))).
Proof.
  apply (exact_match_needs_pdf_name report_listing ["report"] "report").
  intros H. apply endswith_spec in H. vm_compute in H. discriminate H.
Defined.

(** X6.  Both searches depend on the objects listed, not on how the listing
    cuts them into pages nor on pages without ['Contents']. *)
Theorem results_do_not_depend_on_pages {E : PatternEngine} (l1 l2 : pages)
    (target_files : list string) (pattern : string) :
  listing_objects l1 = listing_objects l2 ->
  listing_outcome l1 = None -> listing_outcome l2 = None ->
  find_specific_pdfs l1 target_files = find_specific_pdfs l2 target_files /\
  search_by_pattern l1 pattern = search_by_pattern l2 pattern.
Proof.
  intros Hobj H1 H2. unfold find_specific_pdfs, search_by_pattern.
  rewrite !collect_pages_spec, H1, H2, Hobj. split; [reflexivity|].
  destruct (re_compile pattern) as [[msg|msg]|r]; [reflexivity..|].
  now rewrite !search_pages_spec, H1, H2, Hobj.
Qed.

Lemma results_do_not_depend_on_pages_witness :
  find_specific_pdfs report_listing ["report.pdf"]
  = find_specific_pdfs report_listing_by_one ["report.pdf"] /\
  search_by_pattern (E := MiniRe.engine) report_listing "^report"
  = search_by_pattern (E := MiniRe.engine) report_listing_by_one "^report".
Proof.
  apply (results_do_not_depend_on_pages (E := MiniRe.engine) report_listing
           report_listing_by_one ["report.pdf"] "^report");
    reflexivity.
Defined.

(** ** More on the search by pattern *)

Lemma search_by_pattern_cases {E : PatternEngine} (listing : pages)
    (pattern : string) :
  match re_compile pattern, listing_outcome listing with
  | inl (re_error msg), _ =>
      search_by_pattern listing pattern
      = ([], [st_error ("Invalid regex pattern: " ++ msg)])
  | inl (compile_raises msg), _ =>
      search_by_pattern listing pattern
      = ([], [st_error ("Error searching files: " ++ msg)])
  | inr _, Some e =>
      search_by_pattern listing pattern
      = ([], [st_error ("Error searching files: " ++ exn_str e)])
  | inr r, None =>
      search_by_pattern listing pattern
      = (catalog_of (List.filter (pattern_hit r) (listing_objects listing)),
         [])
  end.
Proof.
  unfold search_by_pattern. destruct (re_compile pattern) as [[msg|msg]|r];
    [reflexivity..|].
  rewrite search_pages_spec. destruct (listing_outcome listing); reflexivity.
Qed.

(** X7.  [search_by_pattern] tells at most one error.  When compiling the
    pattern raises [re.error], an invalid pattern is told, even when the
    listing would fail; when compiling raises another exception, that one
    is told as an error of the search, even when the listing would fail;
    when the pattern compiles and the listing fails, the entries already
    found are dropped and the failure is told; otherwise nothing is told. *)
Theorem search_by_pattern_failures {E : PatternEngine} (listing : pages)
    (pattern : string) :
  match re_compile pattern, listing_outcome listing with
  | inl (re_error msg), _ =>
      search_by_pattern listing pattern
      = ([], [st_error ("Invalid regex pattern: " ++ msg)])
  | inl (compile_raises msg), _ =>
      search_by_pattern listing pattern
      = ([], [st_error ("Error searching files: " ++ msg)])
  | inr _, Some e =>
      search_by_pattern listing pattern
      = ([], [st_error ("Error searching files: " ++ exn_str e)])
  | inr r, None =>
      search_by_pattern listing pattern
      = (catalog_of (List.filter (pattern_hit r) (listing_objects listing)),
         [])
  end.
Proof. apply search_by_pattern_cases. Qed.

(** X9.  When the listing fails, the "Pattern Search" branch tells two
    errors, that of [search_by_pattern] (of the pattern, when compiling
    it raises) and "No PDFs found matching the pattern"; so does the
    "Specific Filenames" branch; the "Browse All PDFs"
    branch tells the error and then the success "Found 0 PDFs in bucket",
    and empties the list of the session. *)
Theorem failed_searches_tell {E : PatternEngine} (L : PatternEngineLaws E)
    (listing : pages) (target_files : list string) (pattern : string)
    (e : listing_exn) :
  listing_outcome listing = Some e ->
  (forall r, re_compile pattern = inr r ->
     calls (pattern_search listing pattern)
     = [st_error ("Error searching files: " ++ exn_str e);
        st_error "No PDFs found matching the pattern"]) /\
  (forall msg, re_compile pattern = inl (re_error msg) ->
     calls (pattern_search listing pattern)
     = [st_error ("Invalid regex pattern: " ++ msg);
        st_error "No PDFs found matching the pattern"]) /\
  (forall msg, re_compile pattern = inl (compile_raises msg) ->
     calls (pattern_search listing pattern)
     = [st_error ("Error searching files: " ++ msg);
        st_error "No PDFs found matching the pattern"]) /\
  calls (browse_all_pdfs listing)
  = [st_error ("Error searching files: " ++ exn_str e);
     st_success "Found 0 PDFs in bucket"] /\
  stored (browse_all_pdfs listing) = Some [] /\
  (forall session,
     shows_found (update_found session (stored (browse_all_pdfs listing)))
     = false) /\
  fst (specific_filenames_search listing target_files)
  = [st_error (listing_error_text e); st_error "No matching PDFs found"].
Proof.
  intros He. unfold pattern_search, browse_all_pdfs.
  pose proof (search_by_pattern_cases listing pattern) as Hp.
  pose proof (search_by_pattern_cases listing ".*") as Hb.
  destruct re_compile_dot_star as (rb & Hrb & _).
  rewrite Hrb, He in Hb. rewrite He in Hp. rewrite Hb.
  split; [|split; [|split; [|split; [|split; [|split]]]]]; try reflexivity.
  - intros r Hr. rewrite Hr in Hp. now rewrite Hp.
  - intros msg Hmsg. rewrite Hmsg in Hp. now rewrite Hp.
  - intros msg Hmsg. rewrite Hmsg in Hp. now rewrite Hp.
  - unfold specific_filenames_search, find_specific_pdfs.
    rewrite collect_pages_spec, He. destruct e; reflexivity.
Qed.

Lemma failed_searches_tell_witness :
  calls (browse_all_pdfs (E := MiniRe.engine) denied_listing)
  = [st_error ("Error searching files: " ++ "AccessDenied");
     st_success "Found 0 PDFs in bucket"].
Proof.
  apply (failed_searches_tell MiniRe_laws denied_listing ["a.pdf"] "report"
           (ClientError "AccessDenied")).
  reflexivity.
Defined.

(** ** The names of the form *)

Lemma char_in_lstrip (c : ascii) (s : string) :
  char_in c s = false -> char_in c (lstrip s) = false.
Proof.
  induction s as [|x s IH]; [reflexivity|]. cbn [lstrip char_in].
  intros [Hx Hs]%orb_false_elim.
  destruct (isspace x); [now apply IH|]. cbn [char_in]. now rewrite Hx, Hs.
Qed.

Lemma char_in_rstrip (c : ascii) (s : string) :
  char_in c s = false -> char_in c (rstrip s) = false.
Proof.
  induction s as [|x s IH]; [reflexivity|]. cbn [rstrip char_in].
  intros [Hx Hs]%orb_false_elim. specialize (IH Hs).
  destruct (rstrip s) as [|d r].
  - destruct (isspace x); [reflexivity|]. cbn [char_in]. now rewrite Hx.
  - cbn [char_in] in *. now rewrite Hx, IH.
Qed.

Lemma requested_names_fixed (names : list string) :
  Forall (fun n => n <> "" /\ strip n = n) names ->
  requested_names names = names.
Proof.
  unfold requested_names. induction 1 as [|n l [Hn Hs] _ IH]; [reflexivity|].
  cbn [map List.filter]. rewrite Hs.
  destruct (String.eqb_spec n "") as [->|_]; [congruence|].
  cbn [negb]. now rewrite IH.
Qed.

Lemma parse_names_Forall (filenames_input : string) :
  Forall (fun n => n <> "" /\ strip n = n /\ char_in "010" n = false)
    (parse_names filenames_input).
Proof.
  unfold parse_names.
  destruct (String.eqb filenames_input ""); [constructor|].
  pose proof (split_segments "010" filenames_input) as Hseg.
  induction Hseg as [|seg l Hc _ IH]; cbn [List.filter map]; [constructor|].
  destruct (String.eqb_spec (strip seg) "") as [He|He]; cbn [negb];
    [exact IH|].
  cbn [map]. constructor; [|exact IH].
  split; [exact He|]. split; [apply strip_idem|].
  unfold strip. now apply char_in_rstrip, char_in_lstrip.
Qed.

Lemma parse_names_requested (filenames_input : string) :
  requested_names (parse_names filenames_input)
  = parse_names filenames_input.
Proof.
  apply requested_names_fixed.
  eapply List.Forall_impl; [|apply parse_names_Forall]. cbn. tauto.
Qed.

(** X10.  The names read from the form are not blank, are trimmed and hold
    no line break; [find_specific_pdfs] takes them as they are. *)
Theorem parse_names_trimmed (filenames_input : string) :
  Forall (fun n => n <> "" /\ strip n = n /\ char_in "010" n = false)
    (parse_names filenames_input) /\
  requested_names (parse_names filenames_input)
  = parse_names filenames_input.
Proof. split; [apply parse_names_Forall|apply parse_names_requested]. Qed.

(** X11.  For names read from the form, [missing_files] holds the
    requested names, lower case, that are the file name of no entry of the
    catalog, whatever the case: a name is missing when it has no exact
    match. *)
Theorem missing_files_of_the_form (listing : pages)
    (filenames_input : string) (n : string) :
  let target_files := parse_names filenames_input in
  let found_files := fst (fst (find_specific_pdfs listing target_files)) in
  let catalog := snd (fst (find_specific_pdfs listing target_files)) in
  n ∈ missing_files found_files target_files <->
  In n (map lower target_files) /\
  ~ exists f, In f catalog /\ lower (FileName f) = n.
Proof.
  cbn zeta.
  pose proof (parse_names_requested filenames_input) as Hreq.
  set (target_files := parse_names filenames_input) in *.
  rewrite <- (missing_files_exact_only _ target_files n Hreq).
  unfold find_specific_pdfs.
  destruct (collect_pages listing []) as [all|[msg|msg]]; cbn [fst snd];
    rewrite ?match_targets_nil; reflexivity.
Qed.

(** ** More on the size formatter *)

Lemma round_half_even_integer (a : Z) : round_half_even (a # 1) = a.
Proof.
  unfold round_half_even. cbn [Qfloor]. rewrite Z.div_1_r.
  unfold Qcompare, Qminus, Qplus, Qopp, inject_Z. cbn [Qnum Qden].
  destruct (Z.compare_spec ((a * 1 + - a * 1) * 2) (1 * Z.pos (1 * 1)))
    as [H|H|H];
    [lia|reflexivity|lia].
Qed.

(** X12.  A size of 1 to 1023 bytes is written as the number of bytes
    followed by [".0 B"]. *)
Theorem format_file_size_bytes (n : Z) :
  0 < n < 1024 ->
  format_file_size n = str_of_N (Z.to_N n) ++ ".0 B".
Proof.
  intros Hn. unfold format_file_size.
  destruct (Z.eqb_spec n 0) as [->|_]; [lia|].
  unfold inject_Z. change (length size_names) with 4%nat.
  rewrite scale_loop_step.
  destruct (Z.leb_spec (1024 * 1) n) as [H|_]; [lia|]. cbn [andb nth].
  unfold format_1f.
  destruct (Qlt_le_dec (n # 1) 0) as [Hneg|_].
  { unfold Qlt in Hneg. cbn in Hneg. lia. }
  unfold Qabs, Qmult. cbn [Qnum Qden]. rewrite (Z.abs_eq n) by lia.
  change (1 * 1)%positive with 1%positive.
  rewrite round_half_even_integer, Z.div_mul, Z_mod_mult by lia.
  rewrite !append_assoc. reflexivity.
Qed.

Lemma format_file_size_bytes_witness :
  format_file_size 512 = str_of_N (Z.to_N 512) ++ ".0 B".
Proof. apply (format_file_size_bytes 512). lia. Defined.

Lemma round_half_even_unique (a t : Z) (b : positive) :
  2 * Z.abs (a - t * Z.pos b) < Z.pos b -> round_half_even (a # b) = t.
Proof.
  intros Ht. pose proof (round_half_even_near a b) as Hr.
  assert (Z.abs (round_half_even (a # b) - t) * Z.pos b < Z.pos b) by nia.
  nia.
Qed.

(** X13.  The unit is chosen before the rounding: the 51 sizes under 1 MB
    are written ["1024.0 KB"] and the 52428 sizes under 1 GB are written
    ["1024.0 MB"]. *)
Theorem format_file_size_below_boundary (n : Z) :
  (1024 ^ 2 - 51 <= n < 1024 ^ 2 -> format_file_size n = "1024.0 KB") /\
  (1024 ^ 3 - 52428 <= n < 1024 ^ 3 -> format_file_size n = "1024.0 MB").
Proof.
  split; intros Hn; unfold format_file_size;
    (destruct (Z.eqb_spec n 0) as [->|_]; [lia|]);
    unfold inject_Z; change (length size_names) with 4%nat.
  - rewrite scale_loop_step.
    destruct (Z.leb_spec (1024 * 1) n) as [_|H]; [|lia].
    cbn [andb Nat.ltb Nat.leb]. rewrite scale_loop_step.
    destruct (Z.leb_spec (1024 * Z.pos (1 * 1024)) n) as [H|_]; [lia|].
    cbn [andb nth]. unfold format_1f.
    destruct (Qlt_le_dec (n # 1 * 1024) 0) as [Hneg|_].
    { unfold Qlt in Hneg. cbn in Hneg. lia. }
    unfold Qabs, Qmult. cbn [Qnum Qden]. rewrite (Z.abs_eq n) by lia.
    rewrite (round_half_even_unique (n * 10) 10240) by lia.
    reflexivity.
  - rewrite scale_loop_step.
    destruct (Z.leb_spec (1024 * 1) n) as [_|H]; [|lia].
    cbn [andb Nat.ltb Nat.leb]. rewrite scale_loop_step.
    destruct (Z.leb_spec (1024 * Z.pos (1 * 1024)) n) as [_|H]; [|lia].
    cbn [andb Nat.ltb Nat.leb]. rewrite scale_loop_step.
    destruct (Z.leb_spec (1024 * Z.pos (1 * 1024 * 1024)) n) as [H|_]; [lia|].
    cbn [andb nth]. unfold format_1f.
    destruct (Qlt_le_dec (n # 1 * 1024 * 1024) 0) as [Hneg|_].
    { unfold Qlt in Hneg. cbn in Hneg. lia. }
    unfold Qabs, Qmult. cbn [Qnum Qden]. rewrite (Z.abs_eq n) by lia.
    rewrite (round_half_even_unique (n * 10) 10240) by lia.
    reflexivity.
Qed.

Lemma format_file_size_below_boundary_witness :
  format_file_size 1048575 = "1024.0 KB".
Proof. apply (format_file_size_below_boundary 1048575). lia. Defined.

(** ** More on the archive *)

Lemma split_without_separator (sep : ascii) (s : string) :
  char_in sep s = false -> split sep s = [s].
Proof.
  induction s as [|c s IH]; [reflexivity|]. cbn [char_in split].
  intros [Hc Hs]%orb_false_elim. rewrite Ascii.eqb_sym, Hc, (IH Hs).
  reflexivity.
Qed.

Lemma basename_without_slash (name : string) :
  char_in "/" name = false -> last_item (split "/" name) = name.
Proof. intros H. now rewrite split_without_separator. Qed.

Lemma existsb_name (name : string) (members : list zip_member) :
  existsb (fun m => String.eqb (member_name m) name) members = true <->
  In name (map member_name members).
Proof.
  rewrite existsb_exists, in_map_iff. split.
  - intros (m & Hm & He). apply String.eqb_eq in He. eauto.
  - intros (m & He & Hm). exists m. split; [exact Hm|].
    now apply String.eqb_eq.
Qed.

Lemma write_items_no_warning (items : dict) (z z' : zip_file)
    (w : list event) :
  write_items items z = (inr z', w) ->
  w = [] <->
  List.NoDup (map (fun item => archive_name (fst item)) items) /\
  forall item, In item items ->
    ~ In (archive_name (fst item)) (map member_name (zip_members z)).
Proof.
  revert z w. induction items as [|[file_name file_data] items IH];
    intros z w.
  - cbn. intros [= <- <-]. split; [intros _; split; [constructor|tauto]|].
    reflexivity.
  - cbn [write_items map fst].
    pose proof (writestr_cases z (last_item (split "/" file_name)) file_data)
      as Hcase. cbn zeta in Hcase.
    fold (archive_name file_name) in Hcase.
    destruct (name_fault (archive_name file_name)) as [e|].
    { destruct (writestr z _ file_data) as [r w0]. cbn [fst] in Hcase.
      destruct Hcase as [-> _]. discriminate. }
    rewrite Hcase. clear Hcase.
    set (name := archive_name file_name) in *.
    set (z1 := {| zip_compression := zip_compression z; zip_members := _ |}).
    specialize (IH z1).
    assert (Hnames : forall n, In n (map member_name (zip_members z1)) <->
                               In n (map member_name (zip_members z))
                               \/ n = name).
    { intros n. subst z1. cbn [zip_members]. rewrite map_app, in_app_iff.
      cbn. intuition. }
    destruct (write_items items z1) as [r w1]. intros [= -> <-].
    specialize (IH w1 eq_refl). rewrite NoDup_cons_iff.
    destruct (existsb _ (zip_members z)) eqn:Hex.
    + apply existsb_name in Hex. cbn [app]. split; [discriminate|].
      intros [_ H]. exfalso. apply (H (file_name, file_data)); [now left|].
      exact Hex.
    + assert (Hfresh : ~ In name (map member_name (zip_members z))).
      { intros Hin. apply existsb_name in Hin. congruence. }
      cbn [app]. rewrite IH. split.
      * intros [Hnd H]. split; [split; [|exact Hnd]|].
        -- intros Hin. apply in_map_iff in Hin as (item & Hi & Hin).
           apply (H item Hin), Hnames. now right.
        -- intros item [<-|Hin]; [exact Hfresh|].
           intros Hc. apply (H item Hin), Hnames. now left.
      * intros [[Hn Hnd] H]. split; [exact Hnd|].
        intros item Hin [Hc| Hc]%Hnames.
        -- apply (H item); [now right|exact Hc].
        -- apply Hn. apply in_map_iff. exists item. split; [exact Hc|exact Hin].
Qed.

(** X14.  [create_zip_file] raises when, and only when, some name of the
    mapping has a base name of which, once cut at its first NUL character,
    nothing is left ([IndexError]) or more than 65535 bytes are left
    ([struct.error]); when it raises nothing, it warns when, and only when,
    two names of the mapping have the same base name so cut. *)
Theorem create_zip_file_warns_of_collisions (files_data : dict) :
  match fst (create_zip_file files_data) with
  | inr archive =>
      Forall (fun item => name_fault (archive_name (fst item)) = None)
        files_data /\
      (snd (create_zip_file files_data) = [] <->
       List.NoDup (map (fun item => archive_name (fst item)) files_data))
  | inl e =>
      Exists (fun item => name_fault (archive_name (fst item)) = Some e)
        files_data
  end.
Proof.
  unfold create_zip_file.
  pose proof (write_items_spec files_data
                {| zip_compression := ZIP_DEFLATED; zip_members := [] |}
                eq_refl) as (_ & Hr).
  destruct (write_items files_data _) as [[e|archive] w] eqn:Hrun;
    cbn [fst snd] in *; [exact Hr|].
  split; [exact (proj1 Hr)|].
  rewrite (write_items_no_warning _ _ _ _ Hrun). cbn. tauto.
Qed.

Example create_zip_file_cuts_names :
  create_zip_file [(String "x" (String "000" "a.pdf"), [Byte.x01]);
                   (String "x" (String "000" "b.pdf"), [Byte.x02])]
  = (inr (archive_of [("x", [Byte.x01]); ("x", [Byte.x02])]),
     [warn_duplicate_name "x"]).
Proof. reflexivity. Qed.

(** ** More on the bulk download *)

Lemma dict_set_In (d : dict) (k : string) (v : bytes) (item : string * bytes) :
  In item (dict_set d k v) -> item = (k, v) \/ In item d.
Proof.
  induction d as [|[k' v'] d IH]; cbn [dict_set].
  - intros [<-|[]]. now left.
  - destruct (String.eqb_spec k' k) as [->|Hk].
    + intros [<-|H]; [now left|right; now right].
    + intros [<-|H]; [right; now left|].
      destruct (IH H); [now left|right; now right].
Qed.

Lemma dict_set_keys (d : dict) (k : string) (v : bytes) (k' : string) :
  In k' (map fst (dict_set d k v)) <-> k' = k \/ In k' (map fst d).
Proof.
  induction d as [|[k0 v0] d IH]; cbn [dict_set map fst].
  - cbn. intuition.
  - destruct (String.eqb_spec k0 k) as [->|Hk]; cbn [map fst In].
    + intuition.
    + rewrite IH. intuition.
Qed.

Lemma dict_set_NoDup (d : dict) (k : string) (v : bytes) :
  List.NoDup (map fst d) -> List.NoDup (map fst (dict_set d k v)).
Proof.
  induction d as [|[k0 v0] d IH]; cbn [dict_set map fst]; intros H.
  - repeat constructor. intros [].
  - apply NoDup_cons_iff in H as [Hk0 Hd].
    destruct (String.eqb_spec k0 k) as [->|Hk]; cbn [map fst].
    + now constructor.
    + constructor; [|now apply IH].
      rewrite dict_set_keys. intros [->|Hin]; congruence.
Qed.

Lemma dict_from_NoDup (items : list (string * bytes)) (d : dict) :
  List.NoDup (map fst d) -> List.NoDup (map fst (dict_from d items)).
Proof.
  revert d. induction items as [|[k v] items IH]; intros d H; [exact H|].
  cbn [dict_from fold_left fst snd]. apply IH. now apply dict_set_NoDup.
Qed.

Lemma dict_from_In (items : list (string * bytes)) (d : dict)
    (item : string * bytes) :
  In item (dict_from d items) -> In item d \/ In item items.
Proof.
  revert d. induction items as [|[k v] items IH]; intros d; [now left|].
  cbn [dict_from fold_left fst snd]. intros H.
  destruct (IH _ H) as [H'|H']; [|right; now right].
  destruct (dict_set_In _ _ _ _ H') as [->|Hd]; [right; now left|now left].
Qed.

Lemma dict_from_empty (items : list (string * bytes)) (d : dict) :
  dict_from d items = [] <-> d = [] /\ items = [].
Proof.
  revert d. induction items as [|[k v] items IH]; intros d.
  - cbn. intuition.
  - change (dict_from d ((k, v) :: items))
      with (dict_from (dict_set d k v) items).
    rewrite IH. split.
    + intros [H _]. destruct d as [|[k' v'] d]; cbn in H; [discriminate|].
      destruct (String.eqb k' k); discriminate.
    + intros [_ H]. discriminate.
Qed.

Lemma kept_downloads_In (get_object : string -> string + bytes)
    (selected_files : list file_info) (item : string * bytes) :
  In item (kept_downloads get_object selected_files) ->
  exists f, In f selected_files /\ FileName f = fst item /\
            get_object (Key f) = inr (snd item) /\ snd item <> [].
Proof.
  unfold kept_downloads. intros H. apply in_flat_map in H as (f & Hf & H).
  exists f. split; [exact Hf|].
  destruct (get_object (Key f)) as [msg|[|b data]];
    [destruct H|destruct H|destruct H as [<-|[]]].
  cbn. repeat split. discriminate.
Qed.

Lemma extract_archive_of (files_data : dict) :
  extract (archive_of files_data) = files_data.
Proof.
  unfold extract, archive_of. cbn [zip_members].
  induction files_data as [|[k v] l IH]; [reflexivity|].
  cbn [map member_name member_data fst snd]. now f_equal.
Qed.

Lemma archive_name_of_file_name (name : string) :
  char_in "/" name = false -> storable name ->
  archive_name name = name /\ name_fault name = None.
Proof.
  intros Hslash H. unfold archive_name.
  rewrite (basename_without_slash name Hslash).
  now apply storable_no_fault.
Qed.

Lemma create_zip_file_of_file_names (files_data : dict) :
  Forall (fun item => char_in "/" (fst item) = false /\ storable (fst item))
    files_data ->
  List.NoDup (map fst files_data) ->
  create_zip_file files_data = (inr (archive_of files_data), []).
Proof.
  intros Hnames Hnd.
  assert (Heq : forall item, In item files_data ->
                  archive_name (fst item) = fst item).
  { rewrite List.Forall_forall in Hnames. intros item Hin.
    destruct (Hnames item Hin). now apply archive_name_of_file_name. }
  assert (Hall : Forall
                   (fun item => name_fault (archive_name (fst item)) = None)
                   files_data).
  { apply List.Forall_forall. intros item Hin. rewrite (Heq item Hin).
    rewrite List.Forall_forall in Hnames.
    destruct (Hnames item Hin). now apply archive_name_of_file_name. }
  destruct (create_zip_file_completes files_data Hall) as (w & Hrun & _).
  rewrite Hrun. f_equal.
  - f_equal. unfold archive_of. f_equal. apply map_ext_in.
    intros item Hin. unfold member_of. now rewrite (Heq item Hin).
  - apply (write_items_no_warning _ _ _ _ Hrun). split; [|intros it _ []].
    rewrite (map_ext_in _ fst); [exact Hnd|exact Heq].
Qed.

Lemma warnings_of_download_selected (get_object : string -> string + bytes)
    (selected_files : list file_info) (i total : nat) (files_data : dict) :
  warnings_of
    (snd (download_selected get_object selected_files i total files_data))
  = [].
Proof.
  revert i files_data.
  induction selected_files as [|f rest IH]; intros i d; [reflexivity|].
  rewrite download_selected_cons. cbn zeta. cbn [snd].
  unfold warnings_of, download_error in *. cbn [flat_map app].
  rewrite flat_map_app. cbn [flat_map app]. rewrite IH.
  destruct (get_object (Key f)); reflexivity.
Qed.

(** X15.  For selected files whose file name holds no [/], is not empty,
    holds no NUL character and is written in 65535 bytes at most, the
    archive of the bulk download holds exactly the dictionary built by the
    loop, under the file names themselves, and nothing is raised: there is
    an archive when, and only when, some download gave at least one byte;
    its names are all different, so no warning is given; and each member
    holds the bytes downloaded for a selected file of that name. *)
Theorem bulk_archive_members (get_object : string -> string + bytes)
    (selected_files : list file_info) :
  Forall (fun f => char_in "/" (FileName f) = false /\ storable (FileName f))
    selected_files ->
  let files_data := dict_from [] (kept_downloads get_object selected_files) in
  let result := download_selected_as_zip get_object selected_files in
  fst result
  = match files_data with
    | [] => None
    | _ :: _ => Some (inr (archive_of files_data))
    end /\
  extract (archive_of files_data) = files_data /\
  (files_data = [] <-> kept_downloads get_object selected_files = []) /\
  List.NoDup (map fst files_data) /\
  warnings_of (snd result) = [] /\
  Forall
    (fun item =>
       exists f, In f selected_files /\ FileName f = fst item /\
                 get_object (Key f) = inr (snd item) /\ snd item <> [])
    files_data.
Proof.
  intros Hnames. cbn zeta.
  set (kept := kept_downloads get_object selected_files).
  assert (Hitems : Forall
            (fun item =>
               exists f, In f selected_files /\ FileName f = fst item /\
                         get_object (Key f) = inr (snd item) /\
                         snd item <> [])
            (dict_from [] kept)).
  { apply List.Forall_forall. intros item Hin.
    destruct (dict_from_In _ _ _ Hin) as [[]|Hk].
    now apply kept_downloads_In. }
  assert (Hok : Forall (fun item => char_in "/" (fst item) = false
                                    /\ storable (fst item))
                  (dict_from [] kept)).
  { eapply List.Forall_impl; [|exact Hitems].
    intros item (f & Hf & <- & _). rewrite List.Forall_forall in Hnames.
    now apply Hnames. }
  assert (Hnd : List.NoDup (map fst (dict_from [] kept))).
  { apply dict_from_NoDup. constructor. }
  pose proof (download_selected_spec get_object selected_files 0
                (length selected_files) []) as (Hd & _ & _).
  pose proof (warnings_of_download_selected get_object selected_files 0
                (length selected_files) []) as Hlog.
  fold kept in Hd. unfold download_selected_as_zip.
  destruct (download_selected get_object selected_files 0
              (length selected_files) []) as [files_data log].
  cbn [fst snd] in Hd, Hlog. subst files_data.
  pose proof (create_zip_file_of_file_names _ Hok Hnd) as Hzip.
  split; [|split; [apply extract_archive_of|split;
    [|split; [exact Hnd|split; [|exact Hitems]]]]].
  - destruct (dict_from [] kept) as [|item files_data]; [reflexivity|].
    now rewrite Hzip.
  - rewrite dict_from_empty. tauto.
  - destruct (dict_from [] kept) as [|item files_data]; [exact Hlog|].
    rewrite Hzip. cbn [snd app]. unfold warnings_of in *.
    rewrite flat_map_app, Hlog. reflexivity.
Qed.

Lemma bulk_archive_members_witness :
  let files_data := dict_from [] (kept_downloads sample_store partial_selection)
  in
  let result := download_selected_as_zip sample_store partial_selection in
  fst result
  = match files_data with
    | [] => None
    | _ :: _ => Some (inr (archive_of files_data))
    end /\
  extract (archive_of files_data) = files_data /\
  (files_data = [] <-> kept_downloads sample_store partial_selection = []) /\
  List.NoDup (map fst files_data) /\
  warnings_of (snd result) = [] /\
  Forall
    (fun item =>
       exists f, In f partial_selection /\ FileName f = fst item /\
                 sample_store (Key f) = inr (snd item) /\ snd item <> [])
    files_data.
Proof.
  apply (bulk_archive_members sample_store partial_selection).
  repeat (constructor;
          [split; [reflexivity
                  |split; [discriminate
                          |split; [reflexivity|vm_compute; discriminate]]]
          |]).
  constructor.
Defined.

Lemma warnings_tell_nothing_else (w : list event) :
  Forall (fun e => exists name, e = warn_duplicate_name name) w ->
  progress_of w = [] /\ fetched w = [] /\ errors w = [].
Proof.
  induction 1 as [|e w [name ->] _ (IH1 & IH2 & IH3)]; [now repeat split|].
  cbn. auto.
Qed.

Lemma create_zip_file_warnings (files_data : dict) :
  Forall (fun e => exists name, e = warn_duplicate_name name)
    (snd (create_zip_file files_data)).
Proof.
  apply (write_items_spec files_data
           {| zip_compression := ZIP_DEFLATED; zip_members := [] |} eq_refl).
Qed.

Lemma download_selected_as_zip_log (get_object : string -> string + bytes)
    (selected_files : list file_info) :
  exists w,
    Forall (fun e => exists name, e = warn_duplicate_name name) w /\
    (snd (download_selected_as_zip get_object selected_files)
     = (snd (download_selected get_object selected_files 0
               (length selected_files) []) ++ w)%list
     \/ exists n,
          snd (download_selected_as_zip get_object selected_files)
          = (snd (download_selected get_object selected_files 0
                    (length selected_files) [])
             ++ w ++ [st_success_zip_ready n])%list).
Proof.
  unfold download_selected_as_zip.
  destruct (download_selected get_object selected_files 0
              (length selected_files) []) as [[|item files_data] log];
    cbn [snd].
  - exists []. split; [constructor|]. left. now rewrite app_nil_r.
  - pose proof (create_zip_file_warnings (item :: files_data)) as Hw.
    destruct (create_zip_file (item :: files_data)) as [[e|zip_data] w];
      cbn [snd] in *; exists w; split; try exact Hw; [now left|right].
    now exists (length (item :: files_data)).
Qed.

(** X20.  The bulk download asks the store for every selected file, one
    after the other in the order selected, whether earlier downloads failed
    or not; and it tells one error for each download that fails, in that
    order, with the key and the text of the exception. *)
Theorem bulk_asks_for_every_file (get_object : string -> string + bytes)
    (selected_files : list file_info) :
  let log := snd (download_selected_as_zip get_object selected_files) in
  fetched log = map Key selected_files /\
  errors log = flat_map (download_error get_object) selected_files.
Proof.
  cbn zeta.
  pose proof (download_selected_spec get_object selected_files 0
                (length selected_files) []) as (_ & Hf & He).
  destruct (download_selected_as_zip_log get_object selected_files)
    as (w & Hw & [-> | [n ->]]);
    apply warnings_tell_nothing_else in Hw as (_ & Hfw & Hew);
    rewrite !fetched_app, !errors_app, Hf, He, Hfw, Hew; cbn;
    rewrite !app_nil_r; split; reflexivity.
Qed.

Lemma progress_of_download_selected (get_object : string -> string + bytes)
    (selected_files : list file_info) (i total : nat) (files_data : dict) :
  progress_of
    (snd (download_selected get_object selected_files i total files_data))
  = map (fun j => (j, total)) (seq (S i) (length selected_files)).
Proof.
  revert i files_data.
  induction selected_files as [|f rest IH]; intros i d; [reflexivity|].
  rewrite download_selected_cons. cbn zeta. cbn [snd length seq map].
  unfold progress_of, download_error in *. cbn [flat_map app].
  rewrite flat_map_app. cbn [flat_map app]. rewrite IH.
  destruct (get_object (Key f)); reflexivity.
Qed.

(** X16.  The progress bar goes through 1/n, 2/n ... n/n for the n selected
    files, whether downloads fail or not, and the store is asked n times. *)
Theorem bulk_progress_reaches_the_end (get_object : string -> string + bytes)
    (selected_files : list file_info) :
  let n := length selected_files in
  progress_of (snd (download_selected_as_zip get_object selected_files))
  = map (fun j => (j, n)) (seq 1 n) /\
  length (fetched (snd (download_selected_as_zip get_object selected_files)))
  = n.
Proof.
  cbn zeta.
  pose proof (progress_of_download_selected get_object selected_files 0
                (length selected_files) []) as Hp.
  pose proof (download_selected_spec get_object selected_files 0
                (length selected_files) []) as (_ & Hf & _).
  destruct (download_selected_as_zip_log get_object selected_files)
    as (w & Hw & [-> | [m ->]]);
    apply warnings_tell_nothing_else in Hw as (Hpw & Hfw & _);
    unfold progress_of in *;
    rewrite !fetched_app, !flat_map_app, Hp, Hpw, Hfw; cbn;
    rewrite !app_nil_r, Hf, length_map; split; reflexivity.
Qed.

(** The value a [dict] holds under a key after an assignment. *)
Lemma dict_get_set (d : dict) (k k' : string) (v : bytes) :
  dict_get (dict_set d k v) k'
  = if String.eqb k k' then Some v else dict_get d k'.
Proof.
  induction d as [|[k0 v0] d IH]; cbn [dict_set dict_get].
  - destruct (String.eqb k k'); reflexivity.
  - destruct (String.eqb_spec k0 k) as [->|Hk]; cbn [dict_get].
    + destruct (String.eqb k k'); reflexivity.
    + rewrite IH. destruct (String.eqb_spec k0 k') as [->|Hk'];
        [|reflexivity].
      destruct (String.eqb_spec k k'); [congruence|reflexivity].
Qed.

Lemma dict_get_from_other (items : list (string * bytes)) (d : dict)
    (k : string) :
  Forall (fun item => fst item <> k) items ->
  dict_get (dict_from d items) k = dict_get d k.
Proof.
  intros H. revert d.
  induction H as [|[k0 v0] items Hk _ IH]; intros d; [reflexivity|].
  change (dict_from d ((k0, v0) :: items))
    with (dict_from (dict_set d k0 v0) items).
  rewrite IH, dict_get_set. cbn in Hk.
  destruct (String.eqb_spec k0 k); [congruence|reflexivity].
Qed.

Lemma dict_from_app (items1 items2 : list (string * bytes)) (d : dict) :
  dict_from d (items1 ++ items2) = dict_from (dict_from d items1) items2.
Proof. unfold dict_from. apply fold_left_app. Qed.

Lemma kept_downloads_app (get_object : string -> string + bytes)
    (l1 l2 : list file_info) :
  kept_downloads get_object (l1 ++ l2)
  = (kept_downloads get_object l1 ++ kept_downloads get_object l2)%list.
Proof. unfold kept_downloads. apply flat_map_app. Qed.

Lemma kept_downloads_none (get_object : string -> string + bytes)
    (selected_files : list file_info) (k : string) :
  Forall (fun g => FileName g = k ->
                   forall b data, get_object (Key g) <> inr (b :: data))
    selected_files ->
  Forall (fun item => fst item <> k)
    (kept_downloads get_object selected_files).
Proof.
  intros H. apply List.Forall_forall. intros item Hin.
  apply kept_downloads_In in Hin as (g & Hg & Hname & Hget & Hne).
  rewrite List.Forall_forall in H. intros Hk.
  destruct (snd item) as [|b data] eqn:Hdata; [congruence|].
  apply (H g Hg (eq_trans Hname Hk) b data). exact Hget.
Qed.

(** X17.  Under a file name, the dictionary of the bulk download holds the
    bytes of the last selected file of that name whose download gave at
    least one byte, whatever the files selected before it and whatever the
    files of other names, the failed downloads and the empty files selected
    after it; and it holds nothing under a name for which no download gave
    a byte. *)
Theorem bulk_last_download_wins (get_object : string -> string + bytes)
    (before after : list file_info) (f : file_info) (b : Byte.byte)
    (data : bytes) :
  get_object (Key f) = inr (b :: data) ->
  Forall (fun g => FileName g = FileName f ->
                   forall b' data', get_object (Key g) <> inr (b' :: data'))
    after ->
  dict_get
    (fst (download_selected get_object (before ++ f :: after) 0
            (length (before ++ f :: after)) []))
    (FileName f)
  = Some (b :: data) /\
  forall name,
    Forall (fun g => FileName g = name ->
                     forall b' data', get_object (Key g) <> inr (b' :: data'))
      (before ++ f :: after) ->
    dict_get
      (fst (download_selected get_object (before ++ f :: after) 0
              (length (before ++ f :: after)) []))
      name
    = None.
Proof.
  intros Hf Hafter.
  rewrite (proj1 (download_selected_spec get_object _ _ _ _)). split.
  - rewrite kept_downloads_app, dict_from_app.
    change (f :: after) with ([f] ++ after)%list.
    rewrite kept_downloads_app, dict_from_app.
    rewrite dict_get_from_other by now apply kept_downloads_none.
    assert (Hone : kept_downloads get_object [f]
                   = [(FileName f, b :: data)]).
    { unfold kept_downloads. cbn [flat_map app]. now rewrite Hf. }
    rewrite Hone. cbn [dict_from fold_left fst snd]. rewrite dict_get_set.
    now rewrite String.eqb_refl.
  - intros name Hnone.
    now rewrite dict_get_from_other by now apply kept_downloads_none.
Qed.

Lemma bulk_last_download_wins_witness :
  dict_get
    (fst (download_selected sample_store
            [make_file_info (sample_object "2023/report.pdf" 2);
             make_file_info (sample_object "2024/report.pdf" 1);
             make_file_info (sample_object "lost/report.pdf" 5);
             make_file_info (sample_object "empty.pdf" 0)]
            0 4 []))
    "report.pdf"
  = Some [Byte.x03].
Proof.
  apply (bulk_last_download_wins sample_store
           [make_file_info (sample_object "2023/report.pdf" 2)]
           [make_file_info (sample_object "lost/report.pdf" 5);
            make_file_info (sample_object "empty.pdf" 0)]
           (make_file_info (sample_object "2024/report.pdf" 1))
           Byte.x03 []).
  - reflexivity.
  - repeat constructor; intros _ b' data'; discriminate.
Defined.

(** ** The search button *)

Lemma build_pattern_empty (re_escape : string -> string) (ty : pattern_type)
    (text : string) :
  String.eqb (build_pattern re_escape ty text) "" = String.eqb text "".
Proof.
  destruct ty; cbn [build_pattern]; [| | |reflexivity];
    destruct (String.eqb_spec text "") as [->|H]; reflexivity.
Qed.

(** X18.  The search button is shown for a pattern when the bucket name and
    the text typed are not empty, whatever the type of pattern and whatever
    [re.escape] gives; for names, when the bucket name is not empty and some
    line of the input is not blank. *)
Theorem search_is_offered (re_escape : string -> string)
    (bucket_name : string) (ty : pattern_type) (text : string)
    (filenames_input : string) :
  search_enabled bucket_name PatternSearch []
    (build_pattern re_escape ty text)
  = negb (String.eqb bucket_name "") && negb (String.eqb text "") /\
  search_enabled bucket_name SpecificFilenames
    (parse_names filenames_input) ""
  = negb (String.eqb bucket_name "")
    && existsb (fun line => negb (String.eqb (strip line) ""))
         (split "010" filenames_input).
Proof.
  unfold search_enabled. split; [now rewrite build_pattern_empty|].
  f_equal. unfold parse_names.
  destruct (String.eqb_spec filenames_input "") as [->|_]; [reflexivity|].
  induction (split "010" filenames_input) as [|line l IH];
    cbn [List.filter map existsb]; [reflexivity|].
  destruct (negb (String.eqb (strip line) "")); [reflexivity|exact IH].
Qed.

(** ** The patterns of the form, in the small engine *)

Lemma escaped_not_alnum (c : ascii) :
  char_in c escaped_chars = true -> MiniRe.is_alnum c = false.
Proof.
  destruct c as [[] [] [] [] [] [] [] []]; vm_compute; congruence.
Qed.

Lemma unescaped_not_special (c : ascii) :
  char_in c escaped_chars = false -> char_in c special_chars = false.
Proof.
  destruct c as [[] [] [] [] [] [] [] []]; vm_compute; congruence.
Qed.

Lemma tokenize_cons_plain (c : ascii) (p : string) :
  char_in c special_chars = false ->
  MiniRe.tokenize (String c p)
  = MiniRe.TAtom (MiniRe.Chr c) :: MiniRe.tokenize p.
Proof.
  intros Hc. destruct (not_special c Hc) as (H1 & H2 & H3 & H4 & H5).
  cbn [MiniRe.tokenize]. now rewrite H1, H2, H3, H4, H5, Hc.
Qed.

Lemma tokenize_escape (text rest : string) :
  MiniRe.tokenize (re_escape text ++ rest)
  = (literal_tokens text ++ MiniRe.tokenize rest)%list.
Proof.
  induction text as [|c text IH]; cbn [re_escape literal_tokens app].
  - reflexivity.
  - destruct (char_in c escaped_chars) eqn:Hc.
    + rewrite !append_cons.
      change (MiniRe.tokenize (String "\" (String c (re_escape text ++ rest))))
        with (if MiniRe.is_alnum c
              then [MiniRe.TRaise
                      (re_error "escape outside the supported syntax")]
              else MiniRe.TAtom (MiniRe.Chr c)
                   :: MiniRe.tokenize (re_escape text ++ rest)).
      now rewrite (escaped_not_alnum c Hc), IH.
    + rewrite append_cons, tokenize_cons_plain, IH
        by now apply unescaped_not_special.
      reflexivity.
Qed.

Lemma items_of_literal (text : string) (ts : list MiniRe.token) :
  match ts with MiniRe.TStar :: _ => False | _ => True end ->
  MiniRe.items_of (literal_tokens text ++ ts)
  = match MiniRe.items_of ts with
    | inr r => inr (MiniRe.literal text ++ r)%list
    | inl msg => inl msg
    end.
Proof.
  intros Hts. induction text as [|c text IH];
    cbn [literal_tokens MiniRe.literal app].
  - now destruct (MiniRe.items_of ts).
  - assert (Hstep : MiniRe.items_of
                      (MiniRe.TAtom (MiniRe.Chr c)
                       :: (literal_tokens text ++ ts)%list)
                    = match MiniRe.items_of (literal_tokens text ++ ts) with
                      | inr r => inr (MiniRe.One (MiniRe.Chr c) :: r)
                      | inl msg => inl msg
                      end).
    { destruct text as [|d text]; cbn [literal_tokens app]; [|reflexivity].
      destruct ts as [|[a| | | |e] ts]; try reflexivity. destruct Hts. }
    rewrite Hstep, IH. now destruct (MiniRe.items_of ts).
Qed.

Lemma literal_app (a b : string) :
  MiniRe.literal (a ++ b) = (MiniRe.literal a ++ MiniRe.literal b)%list.
Proof.
  induction a as [|c a IH]; [reflexivity|].
  rewrite append_cons. cbn [MiniRe.literal app]. now rewrite IH.
Qed.

Lemma tokenize_cons_dot (p : string) :
  MiniRe.tokenize (String "." p) = MiniRe.TAtom MiniRe.Dot :: MiniRe.tokenize p.
Proof. reflexivity. Qed.

Lemma tokenize_cons_star (p : string) :
  MiniRe.tokenize (String "*" p) = MiniRe.TStar :: MiniRe.tokenize p.
Proof. reflexivity. Qed.

Lemma tokenize_cons_bol (p : string) :
  MiniRe.tokenize (String "^" p) = MiniRe.TBol :: MiniRe.tokenize p.
Proof. reflexivity. Qed.

Lemma items_of_star (a : MiniRe.atom) (ts : list MiniRe.token) :
  match ts with MiniRe.TStar :: _ => False | _ => True end ->
  MiniRe.items_of (MiniRe.TAtom a :: MiniRe.TStar :: ts)
  = match MiniRe.items_of ts with
    | inr r => inr (MiniRe.Star a :: r)
    | inl msg => inl msg
    end.
Proof.
  destruct ts as [|[b| | | |e] ts]; intros H; try reflexivity. destruct H.
Qed.

Lemma literal_tokens_head (text : string) (ts : list MiniRe.token) :
  match ts with MiniRe.TStar :: _ => False | _ => True end ->
  match (literal_tokens text ++ ts)%list with
  | MiniRe.TStar :: _ => False
  | _ => True
  end.
Proof. destruct text; [tauto|]. intros _. exact I. Qed.

Lemma compile_contains (text : string) :
  MiniRe.compile (".*" ++ re_escape text ++ ".*")
  = inr (MiniRe.Star MiniRe.Dot
         :: MiniRe.literal text ++ [MiniRe.Star MiniRe.Dot])%list.
Proof.
  unfold MiniRe.compile.
  change (".*" ++ re_escape text ++ ".*")
    with (String "." (String "*" (re_escape text ++ ".*"))).
  rewrite tokenize_cons_dot, tokenize_cons_star, tokenize_escape.
  change (MiniRe.tokenize ".*")
    with [MiniRe.TAtom MiniRe.Dot; MiniRe.TStar].
  rewrite items_of_star by now apply literal_tokens_head.
  now rewrite items_of_literal.
Qed.

Lemma compile_starts_with (text : string) :
  MiniRe.compile ("^" ++ re_escape text ++ ".*")
  = inr (MiniRe.Bol
         :: MiniRe.literal text ++ [MiniRe.Star MiniRe.Dot])%list.
Proof.
  unfold MiniRe.compile.
  change ("^" ++ re_escape text ++ ".*")
    with (String "^" (re_escape text ++ ".*")).
  rewrite tokenize_cons_bol, tokenize_escape.
  change (MiniRe.tokenize ".*")
    with [MiniRe.TAtom MiniRe.Dot; MiniRe.TStar].
  cbn [MiniRe.items_of].
  now rewrite items_of_literal.
Qed.

Lemma compile_ends_with (text : string) :
  MiniRe.compile (".*" ++ re_escape text ++ "\.pdf$")
  = inr (MiniRe.Star MiniRe.Dot
         :: MiniRe.literal (text ++ ".pdf") ++ [MiniRe.Eol])%list.
Proof.
  unfold MiniRe.compile.
  change (".*" ++ re_escape text ++ "\.pdf$")
    with (String "." (String "*" (re_escape text ++ "\.pdf$"))).
  rewrite tokenize_cons_dot, tokenize_cons_star, tokenize_escape.
  change (MiniRe.tokenize "\.pdf$")
    with (literal_tokens ".pdf" ++ [MiniRe.TEol])%list.
  rewrite items_of_star by now apply literal_tokens_head.
  rewrite items_of_literal by exact I.
  change (MiniRe.items_of (literal_tokens ".pdf" ++ [MiniRe.TEol]))
    with (@inr compile_exn _ (MiniRe.literal ".pdf" ++ [MiniRe.Eol])%list).
  cbv iota beta. now rewrite literal_app, <- app_assoc.
Qed.

Lemma lower_app_inv (s a b : string) :
  lower s = a ++ b ->
  exists sa sb, s = sa ++ sb /\ lower sa = a /\ lower sb = b.
Proof.
  revert s. induction a as [|c a IH]; intros s H.
  - exists "", s. repeat split. exact H.
  - destruct s as [|x s]; [discriminate H|].
    rewrite append_cons in H. cbn [lower] in H. injection H as Hc Hs.
    destruct (IH s Hs) as (sa & sb & -> & Ha & Hb).
    exists (String x sa), sb. repeat split; [|exact Hb].
    cbn [lower]. now rewrite Hc, Ha.
Qed.

Lemma matches_literal_app (t : string) (r : list MiniRe.item)
    (pre m post : string) :
  MiniRe.matches (MiniRe.literal t ++ r) pre m post <->
  exists m1 m2, m = m1 ++ m2 /\ lower m1 = lower t /\
                MiniRe.matches r (pre ++ m1) m2 post.
Proof.
  revert pre m. induction t as [|c t IH]; intros pre m;
    cbn [MiniRe.literal app lower].
  - split.
    + intros H. exists "", m. rewrite append_nil_r. repeat split. exact H.
    + intros (m1 & m2 & -> & Hm1 & H).
      apply (proj1 (lower_empty m1)) in Hm1. subst m1.
      now rewrite append_nil_r in H.
  - split.
    + intros H. inversion H as [| | |a x r' pre' m' post' Hok Hm| |]; subst.
      apply IH in Hm as (m1 & m2 & -> & Hm1 & Hm).
      exists (String x m1), m2. rewrite append_assoc in Hm.
      cbn [MiniRe.atom_ok] in Hok. apply Ascii.eqb_eq in Hok.
      repeat split; [|exact Hm]. cbn [lower]. now rewrite Hok, Hm1.
    + intros (m1 & m2 & -> & Hm1 & H).
      destruct m1 as [|x m1]; [discriminate Hm1|]. cbn [lower] in Hm1.
      injection Hm1 as Hx Hm1. rewrite append_cons. apply MiniRe.m_one.
      * cbn [MiniRe.atom_ok]. apply Ascii.eqb_eq. now symmetry.
      * apply IH. exists m1, m2. rewrite append_assoc. repeat split; auto.
Qed.

Lemma matches_star_inv (a : MiniRe.atom) (r : list MiniRe.item)
    (pre m post : string) :
  MiniRe.matches (MiniRe.Star a :: r) pre m post ->
  exists m1 m2, m = m1 ++ m2 /\ MiniRe.matches r (pre ++ m1) m2 post.
Proof.
  intros H. remember (MiniRe.Star a :: r) as items eqn:Hi.
  induction H as [| | | |a' r' pre m post Hm _|a' c r' pre m post Hc Hm IH];
    try discriminate Hi; injection Hi as -> ->.
  - exists "", m. rewrite append_nil_r. split; [reflexivity|exact Hm].
  - destruct (IH eq_refl) as (m1 & m2 & -> & H).
    exists (String c m1), m2. split; [reflexivity|].
    now rewrite append_assoc in H.
Qed.

Lemma search_contains (t s : string) :
  MiniRe.search
    (MiniRe.Star MiniRe.Dot
     :: MiniRe.literal t ++ [MiniRe.Star MiniRe.Dot])%list s
  = contains (lower s) (lower t).
Proof.
  apply eq_true_iff_eq. rewrite MiniRe_search_spec, contains_spec. split.
  - intros (pre & m & post & -> & Hm).
    apply matches_star_inv in Hm as (m1 & m2 & -> & Hm).
    apply matches_literal_app in Hm as (m3 & m4 & -> & Ht & _).
    exists (lower (pre ++ m1)), (lower (m4 ++ post)).
    rewrite <- Ht, <- !lower_append. f_equal.
    now rewrite !append_assoc.
  - intros (a & b & H).
    apply lower_app_inv in H as (sa & s' & -> & _ & H).
    apply lower_app_inv in H as (st & sb & -> & Ht & _).
    exists sa, st, sb. split; [reflexivity|].
    apply MiniRe.m_star_skip, matches_literal_app.
    exists st, "". rewrite append_nil_r. repeat split; [exact Ht|].
    apply MiniRe.m_star_skip. constructor.
Qed.

Lemma search_starts_with (t s : string) :
  MiniRe.search
    (MiniRe.Bol :: MiniRe.literal t ++ [MiniRe.Star MiniRe.Dot])%list s
  = startswith (lower s) (lower t).
Proof.
  apply eq_true_iff_eq. rewrite MiniRe_search_spec, startswith_spec. split.
  - intros (pre & m & post & -> & Hm).
    inversion Hm as [|r' m' post' Hm'| | | |]; subst.
    apply matches_literal_app in Hm' as (m3 & m4 & -> & Ht & _).
    exists (lower (m4 ++ post)).
    rewrite <- Ht, <- !lower_append. f_equal.
    now rewrite !append_assoc.
  - intros (b & H).
    apply lower_app_inv in H as (st & sb & -> & Ht & _).
    exists "", st, sb. split; [reflexivity|].
    apply MiniRe.m_bol, matches_literal_app.
    exists st, "". rewrite append_nil_r. repeat split; [exact Ht|].
    apply MiniRe.m_star_skip. constructor.
Qed.

Lemma search_ends_with (t s : string) :
  MiniRe.search
    (MiniRe.Star MiniRe.Dot :: MiniRe.literal t ++ [MiniRe.Eol])%list s
  = endswith (lower s) (lower t)
    || endswith (lower s) (lower t ++ String "010" "").
Proof.
  apply eq_true_iff_eq.
  rewrite MiniRe_search_spec, orb_true_iff, !endswith_spec. split.
  - intros (pre & m & post & -> & Hm).
    apply matches_star_inv in Hm as (m1 & m2 & -> & Hm).
    apply matches_literal_app in Hm as (m3 & m4 & -> & Ht & Hm).
    inversion Hm as [| |r' pre' m' post' Hend Hnil| | |]; subst.
    inversion Hnil; subst.
    match type of Hend with
    | context [EmptyString ++ ?p] => change (EmptyString ++ p) with p in Hend
    end.
    unfold MiniRe.at_end in Hend. apply orb_true_iff in Hend.
    rewrite !String.eqb_eq in Hend. rewrite append_nil_r.
    destruct Hend as [-> | ->]; [left|right]; exists (lower (pre ++ m1));
      rewrite <- Ht, !lower_append, ?append_nil_r, !append_assoc;
      reflexivity.
  - intros [[a H]|[a H]].
    + apply lower_app_inv in H as (sa & st & -> & _ & Ht).
      exists sa, st, "". split; [now rewrite append_nil_r|].
      apply MiniRe.m_star_skip, matches_literal_app.
      exists st, "". rewrite append_nil_r. repeat split; [exact Ht|].
      apply MiniRe.m_eol; [reflexivity|constructor].
    + apply lower_app_inv in H as (sa & s' & -> & _ & H).
      apply lower_app_inv in H as (st & sn & -> & Ht & Hn).
      assert (sn = String "010" "") as ->.
      { destruct sn as [|x [|y sn]]; try discriminate Hn.
        cbn in Hn. injection Hn as Hx. f_equal.
        destruct x as [[] [] [] [] [] [] [] []]; vm_compute in Hx;
          congruence. }
      exists sa, st, (String "010" ""). split; [reflexivity|].
      apply MiniRe.m_star_skip, matches_literal_app.
      exists st, "". rewrite append_nil_r. repeat split; [exact Ht|].
      apply MiniRe.m_eol; [reflexivity|constructor].
Qed.

Lemma append_snoc_inj (u v : string) (c d : ascii) :
  u ++ String c "" = v ++ String d "" -> c = d.
Proof.
  revert v. induction u as [|x u IH]; intros [|y v] H.
  - now injection H.
  - rewrite append_cons in H. injection H as _ H. destruct v; discriminate H.
  - rewrite append_cons in H. injection H as _ H. destruct u; discriminate H.
  - rewrite !append_cons in H. injection H as _ H. now apply IH in H.
Qed.

Lemma endswith_same_last (s a b : string) (c d : ascii) :
  endswith s (a ++ String c "") = true ->
  endswith s (b ++ String d "") = true -> c = d.
Proof.
  intros [p Hp]%endswith_spec [q Hq]%endswith_spec.
  rewrite Hp, <- !append_assoc in Hq. now apply append_snoc_inj in Hq.
Qed.

Lemma endswith_pdf_no_newline (s t : string) :
  endswith s ".pdf" = true ->
  endswith s (t ++ String "010" "") = false.
Proof.
  intros H. destruct (endswith s (t ++ String "010" "")) eqn:Hn;
    [|reflexivity].
  pose proof (endswith_same_last s ".pd" t "f" "010" H Hn) as Hc.
  discriminate Hc.
Qed.

Lemma catalog_of_filter {E : PatternEngine} (r : regex)
    (test : file_info -> bool) (objects : list s3_object) :
  (forall obj, is_pdf_key (obj_Key obj) = true ->
     pattern_hit r obj = test (make_file_info obj)) ->
  catalog_of (List.filter (pattern_hit r) objects)
  = List.filter test (catalog_of objects).
Proof.
  intros H. unfold catalog_of.
  induction objects as [|obj objects IH]; [reflexivity|].
  cbn [List.filter]. destruct (is_pdf_key (obj_Key obj)) eqn:Hpdf.
  - cbn [map List.filter]. rewrite <- (H obj Hpdf).
    destruct (pattern_hit r obj); cbn [List.filter map]; rewrite ?Hpdf;
      cbn [map]; now rewrite IH.
  - destruct (pattern_hit r obj); cbn [List.filter]; rewrite ?Hpdf;
      exact IH.
Qed.

Lemma search_by_pattern_filter (listing : pages) (pattern : string)
    (r : list MiniRe.item) (test : file_info -> bool) :
  MiniRe.compile pattern = inr r ->
  (forall obj, is_pdf_key (obj_Key obj) = true ->
     pattern_hit (E := MiniRe.engine) r obj = test (make_file_info obj)) ->
  fst (search_by_pattern (E := MiniRe.engine) listing pattern)
  = List.filter test (snd (fst (find_specific_pdfs listing []))).
Proof.
  intros Hr Htest.
  rewrite find_specific_pdfs_catalog, search_by_pattern_spec.
  change (@re_compile MiniRe.engine pattern) with (MiniRe.compile pattern).
  rewrite Hr. destruct (listing_outcome listing); [reflexivity|].
  now apply (catalog_of_filter (E := MiniRe.engine)).
Qed.

(** X19.  In the small engine, with [re.escape] as of Python 3.7, the
    patterns that the form builds from a text keep the entries of the
    catalog whose key or file name, whatever the case, holds the text
    ("Contains text"), starts with it ("Starts with"), ends with it followed
    by [.pdf] ("Ends with"); the characters of the text stand for
    themselves. *)
Theorem form_patterns_mean_what_they_say (listing : pages) (text : string) :
  text <> "" ->
  let catalog := snd (fst (find_specific_pdfs listing [])) in
  let result ty :=
    fst (search_by_pattern (E := MiniRe.engine) listing
           (build_pattern re_escape ty text)) in
  result ContainsText
  = List.filter
      (fun f => contains (lower (Key f)) (lower text)
                || contains (lower (FileName f)) (lower text)) catalog /\
  result StartsWith
  = List.filter
      (fun f => startswith (lower (Key f)) (lower text)
                || startswith (lower (FileName f)) (lower text)) catalog /\
  result EndsWith
  = List.filter
      (fun f => endswith (lower (Key f)) (lower text ++ ".pdf")
                || endswith (lower (FileName f)) (lower text ++ ".pdf"))
      catalog.
Proof.
  intros Htext. cbn zeta. cbn [build_pattern].
  destruct (String.eqb_spec text "") as [->|_]; [congruence|].
  split; [|split].
  - apply (search_by_pattern_filter listing _ _ _ (compile_contains text)).
    intros obj _. unfold pattern_hit. cbn [make_file_info Key FileName].
    change (@re_search MiniRe.engine) with MiniRe.search.
    now rewrite !search_contains.
  - apply (search_by_pattern_filter listing _ _ _ (compile_starts_with text)).
    intros obj _. unfold pattern_hit. cbn [make_file_info Key FileName].
    change (@re_search MiniRe.engine) with MiniRe.search.
    now rewrite !search_starts_with.
  - apply (search_by_pattern_filter listing _ _ _ (compile_ends_with text)).
    intros obj Hpdf. unfold pattern_hit. cbn [make_file_info Key FileName].
    change (@re_search MiniRe.engine) with MiniRe.search.
    rewrite !search_ends_with, !lower_append.
    pose proof (make_file_info_ok obj Hpdf) as Hok.
    pose proof (file_name_ends_with_pdf _ Hok) as Hname.
    apply endswith_spec in Hname. cbn [make_file_info FileName] in Hname.
    unfold is_pdf_key in Hpdf.
    rewrite (endswith_pdf_no_newline _ _ Hpdf).
    rewrite (endswith_pdf_no_newline _ _ Hname).
    now rewrite !orb_false_r.
Qed.

Lemma form_patterns_mean_what_they_say_witness :
  fst (search_by_pattern (E := MiniRe.engine) report_listing
         (build_pattern re_escape ContainsText "v2.")) 
  = List.filter
      (fun f => contains (lower (Key f)) (lower "v2.")
                || contains (lower (FileName f)) (lower "v2."))
      (snd (fst (find_specific_pdfs report_listing []))).
Proof.
  apply (form_patterns_mean_what_they_say report_listing "v2.").
  discriminate.
Defined.

Example form_pattern_dot_is_literal :
  build_pattern re_escape EndsWith "_v2" = ".*_v2\.pdf$" /\
  build_pattern re_escape ContainsText "a.b" = ".*a\.b.*" /\
  map Key
    (fst (search_by_pattern (E := MiniRe.engine) report_listing
            (build_pattern re_escape ContainsText "t.p")))
  = ["docs/Report.PDF"].
Proof. repeat split. Qed.
